(** * blockparse: operation sequences from EVM disassembly and bytecode

    A shallow embedding of [src/blockparse.py] (the [EVMDasmParser] and
    [EVMBytecodeParser] classes) together with the Python built-ins the two
    parsers call, and the properties of the parsers that follow from it. *)

From Stdlib Require Import ZArith NArith List Bool Lia.
From Stdlib.Strings Require Import String Ascii Byte.
Import ListNotations.

Local Open Scope Z_scope.
Local Open Scope list_scope.

(** ** Python built-ins used by the parsers

    A Python [str] is modelled as a [string] whose characters are the code
    points below 256; [bytes] is a [list byte]; [int] is [Z]. *)

Module Py.

(** The exceptions the parsers can meet. *)
Inductive exn : Type :=
| ValueError
| LookupError
| NotImplementedError.

(** A computation that returns or raises. *)
Inductive result (A : Type) : Type :=
| Ok (a : A)
| Raise (e : exn).
Arguments Ok {A} a.
Arguments Raise {A} e.

Definition bind {A B : Type} (m : result A) (k : A -> result B) : result B :=
  match m with
  | Ok a => k a
  | Raise e => Raise e
  end.

Notation "x <- m ;; k" := (bind m (fun x => k))
  (at level 61, m at next level, right associativity).

Definition code_point (c : ascii) : Z := Z.of_N (N_of_ascii c).

(** [str.isspace] on one character, as [str.split] and [str.rstrip] use it:
    the code points below 256 that Unicode classes as whitespace. *)
Definition isspace (c : ascii) : bool :=
  let n := code_point c in
  ((9 <=? n) && (n <=? 13)) || ((28 <=? n) && (n <=? 32))
  || (n =? 133) || (n =? 160).

(** The C locale's [isspace], used by [int] after transliteration and by
    [bytes.fromhex]. *)
Definition c_isspace (c : ascii) : bool :=
  let n := code_point c in
  ((9 <=? n) && (n <=? 13)) || (n =? 32).

(** [len] of a list, as a Python integer. *)
Definition len {A : Type} (l : list A) : Z := Z.of_nat (List.length l).

(** The token being read by [split] is closed when a separator or the end of
    the string is met; an empty one is dropped. *)
Definition flush (cur : string) : list string :=
  match cur with
  | EmptyString => []
  | _ => [cur]
  end.

Fixpoint split_from (cur : string) (s : string) : list string :=
  match s with
  | EmptyString => flush cur
  | String c s' =>
      if isspace c then flush cur ++ split_from EmptyString s'
      else split_from (cur ++ String c EmptyString)%string s'
  end.

(** [s.split()]: the maximal runs of non-whitespace characters. *)
Definition split (s : string) : list string := split_from EmptyString s.

(** [s.replace(old, new)] for a two-character [old = c1 c2]: the occurrences
    are found from the left, without overlap, in one pass. *)
Fixpoint replace2 (c1 c2 : ascii) (new : string) (s : string) : string :=
  match s with
  | EmptyString => EmptyString
  | String a s' =>
      match s' with
      | String b s'' =>
          if (a =? c1)%char && (b =? c2)%char
          then (new ++ replace2 c1 c2 new s'')%string
          else String a (replace2 c1 c2 new s')
      | EmptyString => String a EmptyString
      end
  end.

(** [s.rstrip()]. *)
Fixpoint rstrip (s : string) : string :=
  match s with
  | EmptyString => EmptyString
  | String c s' =>
      match rstrip s' with
      | EmptyString => if isspace c then EmptyString else String c EmptyString
      | r => String c r
      end
  end.

(** [s.lstrip()] with the whitespace that [int] accepts around a literal:
    the C locale's, and the two non-ASCII spaces below 256 that [int] turns
    into a blank first. *)
Definition int_isspace (c : ascii) : bool :=
  c_isspace c || (code_point c =? 133) || (code_point c =? 160).

Fixpoint int_lstrip (s : string) : string :=
  match s with
  | String c s' => if int_isspace c then int_lstrip s' else s
  | EmptyString => EmptyString
  end.

Fixpoint int_rstrip (s : string) : string :=
  match s with
  | EmptyString => EmptyString
  | String c s' =>
      match int_rstrip s' with
      | EmptyString => if int_isspace c then EmptyString else String c EmptyString
      | r => String c r
      end
  end.

(** The value of a digit character in bases up to 36. *)
Definition digit_value (c : ascii) : option Z :=
  let n := code_point c in
  if (48 <=? n) && (n <=? 57) then Some (n - 48)
  else if (97 <=? n) && (n <=? 122) then Some (n - 97 + 10)
  else if (65 <=? n) && (n <=? 90) then Some (n - 65 + 10)
  else None.

(** The digits of an integer literal: single underscores may separate digits,
    none may end the literal. [prev_us] tells that the last character read was
    an underscore. *)
Fixpoint digits_from (base : Z) (prev_us : bool) (acc : Z) (s : string)
  : option Z :=
  match s with
  | EmptyString => if prev_us then None else Some acc
  | String c s' =>
      if (c =? "_")%char then
        if prev_us then None else digits_from base true acc s'
      else
        match digit_value c with
        | Some d =>
            if d <? base then digits_from base false (acc * base + d) s'
            else None
        | None => None
        end
  end.

(** The literal after its sign and base prefix: not empty, and it does not
    start with an underscore. *)
Definition int_body (base : Z) (s : string) : option Z :=
  match s with
  | EmptyString => None
  | String c _ => if (c =? "_")%char then None else digits_from base false 0 s
  end.

(** A base prefix (["0x"] or ["0X"] in base 16) is skipped, and one underscore
    after it. *)
Definition skip_prefix (base : Z) (s : string) : string :=
  match s with
  | String z (String x rest) =>
      if (base =? 16) && (z =? "0")%char
         && ((x =? "x")%char || (x =? "X")%char)
      then match rest with
           | String u rest' => if (u =? "_")%char then rest' else rest
           | EmptyString => rest
           end
      else s
  | _ => s
  end.

Definition int_signed (base : Z) (s : string) : option Z :=
  match s with
  | String c s' =>
      if (c =? "+")%char then int_body base (skip_prefix base s')
      else if (c =? "-")%char
      then option_map Z.opp (int_body base (skip_prefix base s'))
      else int_body base (skip_prefix base s)
  | EmptyString => None
  end.

(** [int(s, base)] for a string [s] and [base] 10 or 16; [ValueError] when [s]
    is not a literal of that base. No limit on the number of digits. *)
Definition int (base : Z) (s : string) : result Z :=
  match int_signed base (int_rstrip (int_lstrip s)) with
  | Some v => Ok v
  | None => Raise ValueError
  end.

(** The number a byte stands for. *)
Definition byte_val (b : byte) : Z := Z.of_N (Byte.to_N b).

(** The byte of a number (taken modulo 256). *)
Definition byte_of (z : Z) : byte :=
  match Byte.of_N (Z.to_N (z mod 256)) with
  | Some b => b
  | None => x00
  end.

(** [int.from_bytes(bs, "big")]. *)
Definition int_from_bytes (bs : list byte) : Z :=
  fold_left (fun acc b => acc * 256 + byte_val b) bs 0.

(** An index of a slice, brought into [0, len]: a negative one counts from
    the end. *)
Definition clamp_index (n i : Z) : Z :=
  if i <? 0 then Z.max 0 (i + n) else Z.min i n.

(** [l[lo:hi]]. *)
Definition slice {A : Type} (l : list A) (lo hi : Z) : list A :=
  let lo' := clamp_index (len l) lo in
  let hi' := clamp_index (len l) hi in
  firstn (Z.to_nat (hi' - lo')) (skipn (Z.to_nat lo') l).

(** [bytes.fromhex(s)]: two hexadecimal digits per byte, ASCII whitespace
    allowed between bytes; [ValueError] otherwise. *)
Definition hex_value (c : ascii) : option Z :=
  match digit_value c with
  | Some d => if d <? 16 then Some d else None
  | None => None
  end.

Fixpoint fromhex (s : string) : result (list byte) :=
  match s with
  | EmptyString => Ok []
  | String c s' =>
      if c_isspace c then fromhex s'
      else
        match hex_value c, s' with
        | Some top, String d s'' =>
            match hex_value d with
            | Some bot =>
                bs <- fromhex s'' ;; Ok (byte_of (top * 16 + bot) :: bs)
            | None => Raise ValueError
            end
        | _, _ => Raise ValueError
        end
  end.

End Py.

Import Py.

(** ** The collaborators: [opcodes], [evm_cfg] and [logger]

    The three modules are imported by [blockparse.py] and are not part of it;
    they are taken as parameters. *)

(** Modelled from the spec: the [opcodes] module (opcode-table collaborator).
    A descriptor has a numeric [code] and an [is_push] flag; [opcode_by_name]
    and [opcode_by_value] resolve a mnemonic or a byte value to a descriptor
    or find none; the push opcodes form a numeric range that starts at
    [PUSH1], so no push-class descriptor has a code below [PUSH1]'s. *)
Class Opcodes : Type := {
  OpCode : Type;
  code : OpCode -> Z;
  is_push : OpCode -> bool;
  PUSH1 : OpCode;
  opcode_by_name : string -> option OpCode;
  opcode_by_value : Z -> option OpCode;
  push_code_ge : forall op, is_push op = true -> code PUSH1 <= code op
}.

(** [evm_cfg.EVMOp(pc, opcode, value=None)]. *)
Record EVMOp `{Opcodes} : Type := mkEVMOp {
  pc : Z;
  opcode : OpCode;
  value : option Z
}.
Arguments mkEVMOp {_} pc opcode value.

(** [evm_cfg.blocks_from_ops]: the block builder, opaque to the parsers. *)
Class BlockBuilder `{Opcodes} : Type := {
  Blocks : Type;
  blocks_from_ops : list EVMOp -> Blocks
}.

(** What [logger] receives: a warning naming a line, or a traceback. *)
Inductive event : Type :=
| Warning (lineno : Z) (text : string)
| Log (trace : exn).

(** How a [parse] call ends: it returns what the block builder made of the
    operation sequence handed to it, or it raises and nothing is handed over. *)
Inductive outcome `{BlockBuilder} : Type :=
| Returned (handed : list EVMOp) (blocks : Blocks)
| Raised (e : exn).

(** A lookup that finds nothing raises [LookupError]. *)
Definition found {A : Type} (o : option A) : result A :=
  match o with
  | Some a => Ok a
  | None => Raise LookupError
  end.

(** ** [EVMDasmParser] *)

Module EVMDasmParser.
Section Parser.
Context `{BlockBuilder}.

(** The tokens of a line of disassembly. *)
Definition toks (line : string) : list string :=
  split (replace2 "=" ">" " " line).

(** [evm_op_from_dasm(line)]: more than two tokens, more than one, or
    neither. The arguments of [EVMOp] are evaluated from left to right. *)
Definition evm_op_from_dasm (line : string) : result EVMOp :=
  match toks line with
  | t0 :: t1 :: t2 :: _ =>
      p <- int 10 t0 ;;
      o <- found (opcode_by_name t1) ;;
      v <- int 16 t2 ;;
      Ok (mkEVMOp p o (Some v))
  | t0 :: t1 :: [] =>
      p <- int 10 t0 ;;
      o <- found (opcode_by_name t1) ;;
      Ok (mkEVMOp p o None)
  | _ => Raise NotImplementedError
  end.

(** The parser's [_ops] and what it has sent to the logger so far. *)
Record state : Type := mkState {
  ops : list EVMOp;
  diag : list event
}.

Definition append (op : EVMOp) (st : state) : state :=
  mkState (ops st ++ [op]) (diag st).

Definition emit (e : event) (st : state) : state :=
  mkState (ops st) (diag st ++ [e]).

(** The warning of both skipping paths, for the line at index [i]. *)
Definition skipping (i : Z) (l : string) : event :=
  Warning (i + 1) (rstrip l).

(** The body of the loop of [parse] for the line [l] at index [i]: the new
    state, and the exception that leaves the loop, if any. *)
Definition parse_line (i : Z) (l : string) (st : state)
  : state * option exn :=
  if len (split l) =? 1 then (emit (skipping i l) st, None)
  else if len (split l) <? 1 then (st, None)
  else
    match evm_op_from_dasm l with
    | Ok op => (append op st, None)
    | Raise ValueError =>
        (emit (skipping i l) (emit (Log ValueError) st), None)
    | Raise LookupError =>
        (emit (skipping i l) (emit (Log LookupError) st), None)
    | Raise e => (st, Some e)
    end.

(** [for i, l in enumerate(self._raw)], from index [i] on. *)
Fixpoint parse_lines (i : Z) (lines : list string) (st : state)
  : state * option exn :=
  match lines with
  | [] => (st, None)
  | l :: rest =>
      match parse_line i l st with
      | (st', None) => parse_lines (i + 1) rest st'
      | (st', Some e) => (st', Some e)
      end
  end.

(** [EVMDasmParser(dasm).parse()], with what the logger received. *)
Definition parse (dasm : list string) : outcome * list event :=
  match parse_lines 0 dasm (mkState [] []) with
  | (st, None) => (Returned (ops st) (blocks_from_ops (ops st)), diag st)
  | (st, Some e) => (Raised e, diag st)
  end.

End Parser.
End EVMDasmParser.

(** ** [EVMBytecodeParser] *)

Module EVMBytecodeParser.
Section Parser.
Context `{BlockBuilder}.

(** [__init__(bytecode)]: the buffer [_raw] of the new parser. A [str] has
    its ["0x"] removed and is read as hexadecimal; [bytes] are kept. *)
Definition init (bytecode : string + list byte) : result (list byte) :=
  match bytecode with
  | inl s => fromhex (replace2 "0" "x" "" s)
  | inr b => Ok b
  end.

(** The fields [_raw], [__pc] and [_ops] of a parser. *)
Record state : Type := mkState {
  raw : list byte;
  cursor : Z;
  ops : list EVMOp
}.

(** The parser when [parse] starts: [__pc] is 0 and [_ops] is empty. *)
Definition start (bytecode : list byte) : state := mkState bytecode 0 [].

(** [__consume(n)]. *)
Definition consume (n : Z) (st : state) : list byte * state :=
  (slice (raw st) (cursor st) (cursor st + n),
   mkState (raw st) (cursor st + n) (ops st)).

(** [__has_more_bytes()]. *)
Definition has_more_bytes (st : state) : bool :=
  cursor st <? len (raw st).

Definition append (op : EVMOp) (st : state) : state :=
  mkState (raw st) (cursor st) (ops st ++ [op]).

(** The body of the loop of [parse]. *)
Definition parse_step (st : state) : result state :=
  let pc := cursor st in
  let (b, st1) := consume 1 st in
  let byte := int_from_bytes b in
  op <- found (opcode_by_value byte) ;;
  let const_size := if is_push op then code op - code PUSH1 + 1 else 0 in
  let (const, st2) :=
    if const_size >? 0 then
      let (c, st2) := consume const_size st1 in
      (Some (int_from_bytes c), st2)
    else (None, st1) in
  Ok (append (mkEVMOp pc op const) st2).

(** [while self.__has_more_bytes(): ...] with at most [fuel] turns; [None]
    when the turns run out before the loop ends. *)
Fixpoint parse_loop (fuel : nat) (st : state) : option (result state) :=
  if has_more_bytes st then
    match fuel with
    | O => None
    | S fuel' =>
        match parse_step st with
        | Ok st' => parse_loop fuel' st'
        | Raise e => Some (Raise e)
        end
    end
  else Some (Ok st).

(** The loop from a state on: every turn moves the cursor by one at least,
    so as many turns as bytes are left are enough. *)
Definition run (st : state) : option (result state) :=
  parse_loop (Z.to_nat (len (raw st) - cursor st)) st.

Definition finish (r : result state) : outcome :=
  match r with
  | Ok st => Returned (ops st) (blocks_from_ops (ops st))
  | Raise e => Raised e
  end.

(** [EVMBytecodeParser(bytecode).parse()] for [bytes]. *)
Definition parse (bytecode : list byte) : option outcome :=
  option_map finish (run (start bytecode)).

End Parser.
End EVMBytecodeParser.

(** ** Notions the properties are stated with *)

Section Notions.
Context `{BlockBuilder}.

(** The immediate width of an opcode: for a push-class opcode its code minus
    the first push opcode's code plus 1, and 0 otherwise. *)
Definition imm_width (op : OpCode) : Z :=
  if is_push op then code op - code PUSH1 + 1 else 0.

(** A byte value is registered when [opcode_by_value] resolves it. *)
Definition registered (b : Z) : bool :=
  match opcode_by_value b with
  | Some _ => true
  | None => false
  end.

(** The byte under the cursor. *)
Definition current_byte (st : EVMBytecodeParser.state) : Z :=
  int_from_bytes
    (slice (EVMBytecodeParser.raw st) (EVMBytecodeParser.cursor st)
       (EVMBytecodeParser.cursor st + 1)).

(** The operand read for the opcode [op] found under the cursor: for a
    push-class opcode, the number on the bytes of its immediate that the
    buffer still has. *)
Definition operand_at (st : EVMBytecodeParser.state) (op : OpCode)
  : option Z :=
  if is_push op then
    Some (int_from_bytes
            (slice (EVMBytecodeParser.raw st)
               (EVMBytecodeParser.cursor st + 1)
               (EVMBytecodeParser.cursor st + 1 + imm_width op)))
  else None.

(** The states the loop of [EVMBytecodeParser.parse] goes through on a
    buffer: the first one, and the one after a turn from a state that has
    more bytes. *)
Inductive reaches (bytecode : list byte) : EVMBytecodeParser.state -> Prop :=
| reaches_start : reaches bytecode (EVMBytecodeParser.start bytecode)
| reaches_step st st' :
    reaches bytecode st ->
    EVMBytecodeParser.has_more_bytes st = true ->
    EVMBytecodeParser.parse_step st = Ok st' ->
    reaches bytecode st'.

(** Operations that follow one another from offset [p] to offset [q]: each
    starts where the one before it ends. *)
Inductive chained : Z -> list EVMOp -> Z -> Prop :=
| chained_nil p : chained p [] p
| chained_cons p o l q :
    pc o = p ->
    chained (p + (1 + imm_width (opcode o))) l q ->
    chained p (o :: l) q.

(** [n] bytes, most significant first, of a number. *)
Fixpoint to_bytes_big (n : nat) (v : Z) : list byte :=
  match n with
  | O => []
  | S n' => to_bytes_big n' (v / 256) ++ [byte_of v]
  end.

(** The encoding of an operation: its opcode byte, then, for a push-class
    operation, the operand on as many bytes as the immediate is wide. *)
Definition encode_op (o : EVMOp) : list byte :=
  byte_of (code (opcode o))
  :: match value o with
     | Some v => to_bytes_big (Z.to_nat (imm_width (opcode o))) v
     | None => []
     end.

Definition encode (l : list EVMOp) : list byte :=
  flat_map encode_op l.

(** A well-formed instruction at offset [p]: its opcode is the one
    registered for its code, a byte; a push-class one has an operand that
    fits its immediate, any other has none. *)
Definition well_formed_op (p : Z) (o : EVMOp) : Prop :=
  pc o = p
  /\ 0 <= code (opcode o) < 256
  /\ opcode_by_value (code (opcode o)) = Some (opcode o)
  /\ match value o with
     | Some v =>
         is_push (opcode o) = true /\ 0 <= v < 256 ^ imm_width (opcode o)
     | None => is_push (opcode o) = false
     end.

(** A sequence of well-formed instructions laid out from offset [p]. *)
Fixpoint well_formed (p : Z) (l : list EVMOp) : Prop :=
  match l with
  | [] => True
  | o :: l' =>
      well_formed_op p o
      /\ well_formed (p + (1 + imm_width (opcode o))) l'
  end.

End Notions.

(** The shape of a valid line of disassembly is told with these. *)

Fixpoint all_chars (p : ascii -> bool) (s : string) : bool :=
  match s with
  | EmptyString => true
  | String c s' => p c && all_chars p s'
  end.

(** A string of whitespace, possibly empty. *)
Definition blank (s : string) : bool := all_chars isspace s.

(** No ["=>"] occurs in the string. *)
Fixpoint arrow_free (s : string) : bool :=
  match s with
  | String a ((String b _) as s') =>
      negb ((a =? "=")%char && (b =? ">")%char) && arrow_free s'
  | _ => true
  end.

(** A word: not empty, with no whitespace and no ["=>"] in it. *)
Definition word (s : string) : bool :=
  negb (s =? "")%string
  && all_chars (fun c => negb (isspace c)) s
  && arrow_free s.

(** What follows a token in a line: the end, or whitespace. *)
Definition breaks (r : string) : bool :=
  match r with
  | EmptyString => true
  | String c _ => isspace c
  end.

(** A line of two tokens, [PC MNEMONIC], with the whitespace around them. *)
Definition line2 (lead pc_tok ws1 mnemonic trail : string) : string :=
  (lead ++ pc_tok ++ ws1 ++ mnemonic ++ trail)%string.

(** A line of three tokens, [PC MNEMONIC => HEX]. *)
Definition line3 (lead pc_tok ws1 mnemonic ws2 ws3 hex trail : string)
  : string :=
  (lead ++ pc_tok ++ ws1 ++ mnemonic ++ ws2 ++ "=>" ++ ws3 ++ hex ++ trail)
  %string.

(** The number of hexadecimal digits in a string. *)
Fixpoint hex_digits (s : string) : nat :=
  match s with
  | EmptyString => O
  | String c s' =>
      match hex_value c with
      | Some _ => S (hex_digits s')
      | None => hex_digits s'
      end
  end.


(** A digit of a base. *)
Definition digit_below (base : Z) (c : ascii) : bool :=
  match digit_value c with
  | Some d => d <? base
  | None => false
  end.

(** A string of digits of a base. *)
Definition is_digits (base : Z) (s : string) : bool :=
  all_chars (digit_below base) s.

(** ** Further notions: what a line gives, what a buffer holds *)

Section MoreNotions.
Context `{Opcodes}.

(** The operations a line of disassembly adds to [_ops]: the one built from
    it when the line has two tokens or more and the building succeeds. *)
Definition line_ops (l : string) : list EVMOp :=
  if 2 <=? len (split l) then
    match EVMDasmParser.evm_op_from_dasm l with
    | Ok o => [o]
    | Raise _ => []
    end
  else [].

(** A line of two tokens or more of which the substitution of ["=>"] leaves
    fewer than two. *)
Definition loses_tokens (l : string) : bool :=
  (2 <=? len (split l)) && (len (EVMDasmParser.toks l) <? 2).

Definition is_warning (e : event) : bool :=
  match e with
  | Warning _ _ => true
  | Log _ => false
  end.

(** An operation moved [n] bytes further. *)
Definition shift (n : Z) (o : EVMOp) : EVMOp :=
  mkEVMOp (pc o + n) (opcode o) (value o).

(** The number on the byte of a buffer at an offset. *)
Definition byte_at (bytecode : list byte) (p : Z) : Z :=
  int_from_bytes (slice bytecode p (p + 1)).

(** An operation is the instruction of a buffer at its [pc]: the offset is
    inside the buffer, the opcode is the one registered for the byte there,
    and the operand is the number on the bytes of the immediate that the
    buffer has, for a push-class opcode, and absent otherwise. *)
Definition decoded_at (bytecode : list byte) (o : EVMOp) : Prop :=
  0 <= pc o < len bytecode
  /\ opcode_by_value (byte_at bytecode (pc o)) = Some (opcode o)
  /\ value o =
     if is_push (opcode o) then
       Some (int_from_bytes
               (slice bytecode (pc o + 1)
                  (pc o + 1 + imm_width (opcode o))))
     else None.

(** The state of a parser on the buffer [b2] seen from a parser on
    [b1 ++ b2] that has read [b1] and appended [ops1]. *)
Definition after (b1 : list byte) (ops1 : list EVMOp)
           (st : EVMBytecodeParser.state) : EVMBytecodeParser.state :=
  EVMBytecodeParser.mkState
    (b1 ++ EVMBytecodeParser.raw st)
    (EVMBytecodeParser.cursor st + len b1)
    (ops1 ++ map (shift (len b1)) (EVMBytecodeParser.ops st)).

End MoreNotions.

(** A hexadecimal digit or a blank that [bytes.fromhex] skips. *)
Definition hex_or_space (c : ascii) : bool :=
  c_isspace c
  || match hex_value c with
     | Some _ => true
     | None => false
     end.

(** ** A table of opcodes for the examples *)

Module Table.

(** Modelled from the spec: a descriptor of the [opcodes] module, with its
    mnemonic and numeric code. *)
Record op : Type := mkOp {
  op_name : string;
  op_code : Z
}.

(** Modelled from the spec: the push opcodes are the codes from [PUSH1]'s,
    0x60, to [PUSH32]'s, 0x7f. *)
Definition op_is_push (o : op) : bool :=
  (96 <=? op_code o) && (op_code o <=? 127).

Definition PUSH1 : op := mkOp "PUSH1" 96.
Definition PUSH2 : op := mkOp "PUSH2" 97.
Definition ADD : op := mkOp "ADD" 1.
Definition STOP : op := mkOp "STOP" 0.

(** Modelled from the spec: the registered opcodes, a part of the EVM's
    (0x0c to 0x0f, among others, are not assigned). *)
Definition OPCODES : list op :=
  [ STOP; ADD; mkOp "MUL" 2; mkOp "SUB" 3; mkOp "DIV" 4;
    mkOp "LT" 16; mkOp "GT" 17; mkOp "EQ" 20; mkOp "ISZERO" 21;
    mkOp "POP" 80; mkOp "MLOAD" 81; mkOp "MSTORE" 82;
    mkOp "JUMP" 86; mkOp "JUMPI" 87; mkOp "JUMPDEST" 91;
    PUSH1; PUSH2; mkOp "PUSH3" 98; mkOp "PUSH4" 99; mkOp "PUSH32" 127;
    mkOp "DUP1" 128; mkOp "SWAP1" 144; mkOp "RETURN" 243 ].

Definition by_name (n : string) : option op :=
  find (fun o => (op_name o =? n)%string) OPCODES.

Definition by_value (v : Z) : option op :=
  find (fun o => op_code o =? v) OPCODES.

Definition op_push_code_ge (o : op) (Hp : op_is_push o = true)
  : op_code PUSH1 <= op_code o :=
  proj1 (Z.leb_le 96 (op_code o)) (proj1 (andb_prop _ _ Hp)).

#[export] Instance opcodes : Opcodes :=
  Build_Opcodes op op_code op_is_push PUSH1 by_name by_value op_push_code_ge.

(** An operation over the opcodes of the table. *)
Abbreviation evm_op := (@mkEVMOp opcodes).

(** The block builder of the examples hands the sequence back. *)
#[export] Instance builder : BlockBuilder := {|
  Blocks := list EVMOp;
  blocks_from_ops := fun l => l
|}.

End Table.

(** ** Slices and big-endian numbers *)

Section Builtins.

Lemma len_nonneg {A : Type} (l : list A) : 0 <= len l.
Proof. unfold len. lia. Qed.

Lemma len_app {A : Type} (l1 l2 : list A) : len (l1 ++ l2) = len l1 + len l2.
Proof. unfold len. rewrite length_app. lia. Qed.

(** With indices in order and not negative, a slice drops and then takes. *)
Lemma slice_nonneg {A : Type} (l : list A) (lo hi : Z) :
  0 <= lo -> lo <= hi ->
  slice l lo hi = firstn (Z.to_nat (hi - lo)) (skipn (Z.to_nat lo) l).
Proof.
  intros Hlo Hhi. unfold slice, clamp_index.
  destruct (Z.ltb_spec lo 0) as [Hneg|_]; [lia|].
  destruct (Z.ltb_spec hi 0) as [Hneg|_]; [lia|].
  unfold len.
  destruct (Z.le_gt_cases lo (Z.of_nat (List.length l))) as [Hin|Hout].
  - rewrite (Z.min_l lo) by lia.
    destruct (Z.le_gt_cases hi (Z.of_nat (List.length l))) as [Hin'|Hout'].
    + rewrite Z.min_l by lia. reflexivity.
    + rewrite Z.min_r by lia.
      rewrite !firstn_all2; try reflexivity; rewrite length_skipn; lia.
  - rewrite (Z.min_r lo) by lia. rewrite (Z.min_r hi) by lia.
    rewrite Nat2Z.id, skipn_all.
    rewrite (skipn_all2 l) by lia.
    rewrite !firstn_nil. reflexivity.
Qed.

(** The slice of one element at an index inside the list. *)
Lemma slice_one {A : Type} (l1 l2 : list A) (x : A) :
  slice (l1 ++ x :: l2) (len l1) (len l1 + 1) = [x].
Proof.
  rewrite slice_nonneg by (pose proof (len_nonneg l1); lia).
  unfold len. rewrite Nat2Z.id.
  replace (Z.to_nat (Z.of_nat (List.length l1) + 1 - Z.of_nat (List.length l1)))
    with 1%nat by lia.
  rewrite skipn_app, skipn_all, Nat.sub_diag. reflexivity.
Qed.

Lemma byte_val_range (b : byte) : 0 <= byte_val b < 256.
Proof.
  unfold byte_val. pose proof (Byte.to_N_bounded b) as Hb. lia.
Qed.

Lemma byte_val_of (z : Z) : byte_val (byte_of z) = z mod 256.
Proof.
  unfold byte_val, byte_of.
  pose proof (Z.mod_pos_bound z 256 ltac:(lia)) as Hm.
  destruct (Byte.of_N (Z.to_N (z mod 256))) as [b|] eqn:Hb.
  - apply Byte.to_of_N in Hb. rewrite Hb. lia.
  - apply Byte.of_N_None_iff in Hb. lia.
Qed.

Lemma byte_of_val (b : byte) : byte_of (byte_val b) = b.
Proof.
  unfold byte_of. pose proof (byte_val_range b) as Hr.
  rewrite Z.mod_small by exact Hr.
  unfold byte_val. rewrite N2Z.id, Byte.of_to_N. reflexivity.
Qed.

Lemma int_from_bytes_nil : int_from_bytes [] = 0.
Proof. reflexivity. Qed.

Lemma int_from_bytes_one (b : byte) : int_from_bytes [b] = byte_val b.
Proof. unfold int_from_bytes. simpl. lia. Qed.

Lemma int_from_bytes_snoc (bs : list byte) (b : byte) :
  int_from_bytes (bs ++ [b]) = int_from_bytes bs * 256 + byte_val b.
Proof. unfold int_from_bytes. rewrite fold_left_app. reflexivity. Qed.

Lemma length_to_bytes_big (n : nat) (v : Z) : List.length (to_bytes_big n v) = n.
Proof.
  revert v. induction n as [|n IH]; intros v; simpl; [reflexivity|].
  rewrite length_app, IH. simpl. lia.
Qed.

(** Reading back the [n] bytes written for [v] gives [v] modulo [256 ^ n]. *)
Lemma int_from_to_bytes_big (n : nat) (v : Z) :
  int_from_bytes (to_bytes_big n v) = v mod 256 ^ Z.of_nat n.
Proof.
  revert v. induction n as [|n IH]; intros v.
  - simpl. rewrite Z.mod_1_r. reflexivity.
  - cbn [to_bytes_big]. rewrite int_from_bytes_snoc, IH, byte_val_of.
    rewrite Nat2Z.inj_succ, Z.pow_succ_r by lia.
    rewrite Z.rem_mul_r by lia. lia.
Qed.

End Builtins.

(** ** The loop of [EVMBytecodeParser.parse] *)

Module BytecodeFacts.
Import EVMBytecodeParser.
Section Facts.
Context `{BlockBuilder}.

Lemma imm_width_nonneg (op : OpCode) : 0 <= imm_width op.
Proof.
  unfold imm_width. destruct (is_push op) eqn:Hp; [|lia].
  pose proof (push_code_ge op Hp). lia.
Qed.

Lemma imm_width_push (op : OpCode) : is_push op = true -> 1 <= imm_width op.
Proof.
  intros Hp. unfold imm_width. rewrite Hp.
  pose proof (push_code_ge op Hp). lia.
Qed.

(** One turn of the loop: the byte under the cursor is resolved or the
    lookup fails; the cursor moves past the opcode and its immediate, and
    one operation is appended. *)
Lemma parse_step_eq (st : state) :
  parse_step st =
  match opcode_by_value (current_byte st) with
  | None => Raise LookupError
  | Some op =>
      Ok (mkState (raw st) (cursor st + 1 + imm_width op)
            (ops st ++ [mkEVMOp (cursor st) op (operand_at st op)]))
  end.
Proof.
  unfold parse_step, consume, current_byte, operand_at. cbn [raw cursor ops].
  destruct (opcode_by_value _) as [op|]; cbn [found bind]; [|reflexivity].
  pose proof (imm_width_nonneg op) as Hw. unfold imm_width in *.
  destruct (is_push op) eqn:Hp.
  - pose proof (push_code_ge op Hp) as Hge.
    destruct (Z.gtb_spec (code op - code PUSH1 + 1) 0) as [_|Hle]; [|lia].
    reflexivity.
  - cbn. unfold append. cbn [raw cursor ops]. rewrite Z.add_0_r. reflexivity.
Qed.

Lemma parse_step_raw (st st' : state) :
  parse_step st = Ok st' -> raw st' = raw st.
Proof.
  rewrite parse_step_eq. destruct (opcode_by_value _); intros E; inversion E.
  reflexivity.
Qed.

Lemma parse_step_cursor (st st' : state) :
  parse_step st = Ok st' -> cursor st + 1 <= cursor st'.
Proof.
  rewrite parse_step_eq.
  destruct (opcode_by_value _) as [op|]; intros E; inversion E.
  cbn. pose proof (imm_width_nonneg op). lia.
Qed.

(** Fuel beyond the bytes left does not change the loop's result. *)
Lemma parse_loop_fuel (f1 f2 : nat) (st : state) :
  len (raw st) - cursor st <= Z.of_nat f1 ->
  len (raw st) - cursor st <= Z.of_nat f2 ->
  parse_loop f1 st = parse_loop f2 st.
Proof.
  revert f2 st. induction f1 as [|f1 IH]; intros f2 st H1 H2.
  - destruct f2; [reflexivity|]. cbn [parse_loop].
    unfold has_more_bytes. destruct (Z.ltb_spec (cursor st) (len (raw st)));
      [lia|reflexivity].
  - destruct f2 as [|f2]; cbn [parse_loop]; unfold has_more_bytes;
      destruct (Z.ltb_spec (cursor st) (len (raw st))); try lia;
      try reflexivity.
    destruct (parse_step st) as [st'|e] eqn:Hs; [|reflexivity].
    pose proof (parse_step_raw _ _ Hs) as Hr.
    pose proof (parse_step_cursor _ _ Hs) as Hc.
    apply IH; rewrite Hr; lia.
Qed.

(** The loop, unfolded by one turn. *)
Lemma run_eq (st : state) :
  run st =
  if has_more_bytes st then
    match parse_step st with
    | Ok st' => run st'
    | Raise e => Some (Raise e)
    end
  else Some (Ok st).
Proof.
  unfold run at 1.
  destruct (has_more_bytes st) eqn:Hm.
  - unfold has_more_bytes in Hm. apply Z.ltb_lt in Hm.
    destruct (Z.to_nat (len (raw st) - cursor st)) as [|f] eqn:Hf; [lia|].
    cbn [parse_loop]. unfold has_more_bytes.
    destruct (Z.ltb_spec (cursor st) (len (raw st))); [|lia].
    destruct (parse_step st) as [st'|e] eqn:Hs; [|reflexivity].
    pose proof (parse_step_raw _ _ Hs) as Hr.
    pose proof (parse_step_cursor _ _ Hs) as Hc.
    unfold run. apply parse_loop_fuel; rewrite Hr; lia.
  - destruct (Z.to_nat (len (raw st) - cursor st)); cbn [parse_loop];
      rewrite Hm; reflexivity.
Qed.

(** The loop ends: the turns [run] allows never run out. *)
Lemma run_total (st : state) : exists r, run st = Some r.
Proof.
  remember (Z.to_nat (len (raw st) - cursor st)) as n eqn:Hn.
  revert st Hn. induction n as [n IH] using lt_wf_ind. intros st Hn.
  rewrite run_eq. destruct (has_more_bytes st) eqn:Hm; [|eauto].
  destruct (parse_step st) as [st'|e] eqn:Hs; [|eauto].
  pose proof (parse_step_raw _ _ Hs) as Hr.
  pose proof (parse_step_cursor _ _ Hs) as Hc.
  unfold has_more_bytes in Hm. apply Z.ltb_lt in Hm.
  eapply IH; [|reflexivity]. rewrite Hr. lia.
Qed.

(** What the loop has reached it continues from. *)
Lemma reaches_run (bytecode : list byte) (st : state) :
  reaches bytecode st -> run (start bytecode) = run st.
Proof.
  induction 1 as [|st st' _ IH Hm Hs]; [reflexivity|].
  rewrite IH, (run_eq st), Hm, Hs. reflexivity.
Qed.

Lemma reaches_raw (bytecode : list byte) (st : state) :
  reaches bytecode st -> raw st = bytecode.
Proof.
  induction 1 as [|st st' _ IH _ Hs]; [reflexivity|].
  rewrite (parse_step_raw _ _ Hs). exact IH.
Qed.

Lemma reaches_cursor (bytecode : list byte) (st : state) :
  reaches bytecode st -> 0 <= cursor st.
Proof.
  induction 1 as [|st st' _ IH _ Hs]; [cbn; lia|].
  pose proof (parse_step_cursor _ _ Hs). lia.
Qed.

(** A result of the loop is a state it reached, with no byte left. *)
Lemma run_reaches (bytecode : list byte) (st st' : state) :
  reaches bytecode st -> run st = Some (Ok st') ->
  reaches bytecode st' /\ has_more_bytes st' = false.
Proof.
  remember (Z.to_nat (len (raw st) - cursor st)) as n eqn:Hn.
  revert st Hn. induction n as [n IH] using lt_wf_ind. intros st Hn Hr.
  rewrite run_eq. destruct (has_more_bytes st) eqn:Hm.
  - destruct (parse_step st) as [st1|e] eqn:Hs; [|discriminate].
    pose proof (parse_step_raw _ _ Hs) as Hraw.
    pose proof (parse_step_cursor _ _ Hs) as Hc.
    unfold has_more_bytes in Hm. apply Z.ltb_lt in Hm.
    apply (IH (Z.to_nat (len (raw st1) - cursor st1))); [rewrite Hraw; lia|reflexivity|].
    eapply reaches_step; eauto. unfold has_more_bytes. now apply Z.ltb_lt.
  - intros E. inversion E. subst st'. split; assumption.
Qed.

End Facts.
End BytecodeFacts.

(** ** Properties of [EVMBytecodeParser] *)

Module BytecodeProps.
Import EVMBytecodeParser BytecodeFacts.
Section Props.
Context `{BlockBuilder}.

Lemma slice_mid {A : Type} (l1 m l2 : list A) :
  slice (l1 ++ m ++ l2) (len l1) (len l1 + len m) = m.
Proof.
  pose proof (len_nonneg l1). pose proof (len_nonneg m).
  rewrite slice_nonneg by lia. unfold len in *.
  replace (Z.to_nat (Z.of_nat (List.length l1) + Z.of_nat (List.length m)
                     - Z.of_nat (List.length l1)))
    with (List.length m) by lia.
  rewrite Nat2Z.id, skipn_app, skipn_all, Nat.sub_diag. cbn [skipn app].
  rewrite firstn_app, firstn_all, Nat.sub_diag. cbn. apply app_nil_r.
Qed.

(** A slice that starts inside the list and ends past it is the rest. *)
Lemma slice_rest {A : Type} (l : list A) (lo hi : Z) :
  0 <= lo -> len l <= hi -> lo <= hi ->
  slice l lo hi = skipn (Z.to_nat lo) l.
Proof.
  intros Hlo Hhi Hle. rewrite slice_nonneg by lia.
  apply firstn_all2. rewrite length_skipn. unfold len in *. lia.
Qed.

Lemma chained_snoc (p q : Z) (l : list EVMOp) (o : EVMOp) :
  chained p l q -> pc o = q ->
  chained p (l ++ [o]) (q + (1 + imm_width (opcode o))).
Proof.
  induction 1 as [p|p o' l q Hp _ IH]; intros Ho.
  - cbn. apply chained_cons; [exact Ho|]. subst. apply chained_nil.
  - cbn. apply chained_cons; [exact Hp|]. apply IH. exact Ho.
Qed.

Lemma chained_lower (p q : Z) (l : list EVMOp) :
  chained p l q -> forall o, In o l -> p <= pc o.
Proof.
  induction 1 as [p|p o' l q Hp _ IH]; intros o Hin; [destruct Hin|].
  destruct Hin as [->|Hin]; [lia|].
  specialize (IH o Hin). pose proof (imm_width_nonneg (opcode o')). lia.
Qed.

Lemma chained_next (p q : Z) (l : list EVMOp) :
  chained p l q ->
  forall i o o', nth_error l i = Some o -> nth_error l (S i) = Some o' ->
  pc o' = pc o + (1 + imm_width (opcode o)).
Proof.
  induction 1 as [p|p o1 l q Hp Hc IH]; intros i o o' Hi Hi'.
  - destruct i; discriminate.
  - destruct i as [|i].
    + cbn in Hi, Hi'. inversion Hi; subst o1.
      inversion Hc as [|p' o2 l' q' Hp2 Hc2]; subst; [discriminate|].
      cbn in Hi'. inversion Hi'; subst. exact Hp2.
    + cbn in Hi. apply (IH i o o' Hi Hi').
Qed.

Lemma chained_increasing (p q : Z) (l : list EVMOp) :
  chained p l q ->
  forall i j o o', (i < j)%nat ->
  nth_error l i = Some o -> nth_error l j = Some o' -> pc o < pc o'.
Proof.
  induction 1 as [p|p o1 l q Hp Hc IH]; intros i j o o' Hij Hi Hj.
  - destruct i; discriminate.
  - destruct j as [|j]; [lia|]. cbn in Hj. destruct i as [|i].
    + cbn in Hi. inversion Hi; subst o1.
      pose proof (chained_lower _ _ _ Hc o' (nth_error_In _ _ Hj)).
      pose proof (imm_width_nonneg (opcode o)). lia.
    + cbn in Hi. apply (IH i j o o'); [lia|assumption|assumption].
Qed.

(** The operations appended so far lie one after the other from offset 0 to
    the cursor. *)
Lemma reaches_chained (bytecode : list byte) (st : state) :
  reaches bytecode st -> chained 0 (ops st) (cursor st).
Proof.
  induction 1 as [|st st' _ IH _ Hs]; [apply chained_nil|].
  rewrite parse_step_eq in Hs.
  destruct (opcode_by_value _) as [op|]; [|discriminate].
  inversion Hs; subst st'; cbn [ops cursor].
  replace (cursor st + 1 + imm_width op)
    with (cursor st + (1 + imm_width op)) by lia.
  apply (chained_snoc _ _ _ (mkEVMOp (cursor st) op (operand_at st op)) IH).
  reflexivity.
Qed.

(** A returned sequence is in a state the loop reached. *)
Lemma parse_returned (bytecode : list byte) (handed : list EVMOp)
      (blocks : Blocks) :
  parse bytecode = Some (Returned handed blocks) ->
  exists st, reaches bytecode st /\ has_more_bytes st = false
             /\ ops st = handed.
Proof.
  unfold parse. destruct (run (start bytecode)) as [[st|e]|] eqn:Hr;
    cbn; intros E; inversion E; subst.
  destruct (run_reaches bytecode _ _ (reaches_start bytecode) Hr) as [Hre Hm].
  exists st. auto.
Qed.

(** The last turn on a push-class opcode whose immediate reaches the end of
    the buffer or goes past it. *)
Lemma last_push (bytecode : list byte) (st : state) (op : OpCode) :
  reaches bytecode st ->
  has_more_bytes st = true ->
  opcode_by_value (current_byte st) = Some op ->
  is_push op = true ->
  len bytecode <= cursor st + 1 + imm_width op ->
  parse bytecode =
  Some (let l := ops st ++
                 [mkEVMOp (cursor st) op
                    (Some (int_from_bytes
                             (skipn (Z.to_nat (cursor st + 1)) bytecode)))] in
        Returned l (blocks_from_ops l)).
Proof.
  intros Hre Hm Hop Hp Hlen. unfold parse.
  rewrite (reaches_run _ _ Hre), run_eq, Hm, parse_step_eq, Hop.
  pose proof (reaches_raw _ _ Hre) as Hraw.
  pose proof (reaches_cursor _ _ Hre) as Hc.
  pose proof (imm_width_nonneg op) as Hw.
  rewrite run_eq. unfold has_more_bytes at 1. cbn [raw cursor].
  destruct (Z.ltb_spec (cursor st + 1 + imm_width op) (len (raw st)));
    [rewrite Hraw in *; lia|].
  cbn. unfold operand_at. rewrite Hp, Hraw.
  rewrite slice_rest by lia. reflexivity.
Qed.

(** The loop raises only where the lookup of the byte under the cursor
    fails. *)
Lemma run_raised (bytecode : list byte) (st : state) (e : exn) :
  reaches bytecode st -> run st = Some (Raise e) ->
  e = LookupError
  /\ exists st', reaches bytecode st' /\ has_more_bytes st' = true
                 /\ registered (current_byte st') = false.
Proof.
  remember (Z.to_nat (len (raw st) - cursor st)) as n eqn:Hn.
  revert st Hn. induction n as [n IH] using lt_wf_ind. intros st Hn Hre.
  rewrite run_eq. destruct (has_more_bytes st) eqn:Hm; [|discriminate].
  destruct (parse_step st) as [st1|e1] eqn:Hs.
  - pose proof (parse_step_raw _ _ Hs) as Hraw.
    pose proof (parse_step_cursor _ _ Hs) as Hc.
    assert (Hlt : cursor st < len (raw st))
      by (unfold has_more_bytes in Hm; now apply Z.ltb_lt in Hm).
    apply (IH (Z.to_nat (len (raw st1) - cursor st1)));
      [rewrite Hraw; lia|reflexivity|].
    eapply reaches_step; eauto.
  - intros E. inversion E; subst e1. rewrite parse_step_eq in Hs.
    destruct (opcode_by_value (current_byte st)) as [op|] eqn:Hop;
      [discriminate|].
    inversion Hs. split; [reflexivity|]. exists st.
    unfold registered. rewrite Hop. auto.
Qed.

Lemma encode_op_len (o : EVMOp) :
  match value o with
  | Some _ => True
  | None => is_push (opcode o) = false
  end ->
  len (encode_op o) = 1 + imm_width (opcode o).
Proof.
  intros Hv. unfold encode_op, len. cbn [List.length].
  pose proof (imm_width_nonneg (opcode o)) as Hw.
  destruct (value o) as [v|].
  - rewrite length_to_bytes_big. lia.
  - unfold imm_width in *. rewrite Hv. reflexivity.
Qed.

(** From a state whose cursor stands before the encoding of well-formed
    instructions, the loop appends exactly these. *)
Lemma run_encode (l : list EVMOp) :
  forall (pre : list byte) (st : state),
  raw st = pre ++ encode l -> cursor st = len pre ->
  well_formed (len pre) l ->
  exists st', run st = Some (Ok st') /\ ops st' = ops st ++ l.
Proof.
  induction l as [|o l IH]; intros pre st Hraw Hcur Hwf.
  - rewrite run_eq. unfold has_more_bytes. rewrite Hraw, Hcur.
    cbn [encode flat_map]. rewrite app_nil_r, Z.ltb_irrefl.
    exists st. rewrite app_nil_r. auto.
  - destruct Hwf as [(Hpc & Hcode & Hreg & Hval) Hwf].
    assert (Henc : encode (o :: l) = encode_op o ++ encode l) by reflexivity.
    assert (Hlen : len (encode_op o) = 1 + imm_width (opcode o)).
    { apply encode_op_len. destruct (value o); tauto. }
    pose proof (imm_width_nonneg (opcode o)) as Hw.
    pose proof (len_nonneg pre) as Hpre.
    pose proof (len_nonneg (encode l)) as Hrest.
    rewrite run_eq. unfold has_more_bytes.
    destruct (Z.ltb_spec (cursor st) (len (raw st))) as [_|Hge];
      [|rewrite Hraw, Henc, !len_app in Hge; lia].
    assert (Hbyte : current_byte st = code (opcode o)).
    { unfold current_byte. rewrite Hraw, Hcur, Henc. unfold encode_op.
      cbn [app]. rewrite slice_one, int_from_bytes_one, byte_val_of.
      apply Z.mod_small. exact Hcode. }
    rewrite parse_step_eq, Hbyte, Hreg.
    assert (Hop : operand_at st (opcode o) = value o).
    { unfold operand_at. destruct (value o) as [v|] eqn:Hv.
      - destruct Hval as [Hp Hr]. rewrite Hp. f_equal.
        rewrite Hraw, Hcur, Henc. unfold encode_op. rewrite Hv.
        change (pre ++ (byte_of (code (opcode o))
                          :: to_bytes_big (Z.to_nat (imm_width (opcode o))) v)
                       ++ encode l)
          with (pre ++ [byte_of (code (opcode o))]
                    ++ to_bytes_big (Z.to_nat (imm_width (opcode o))) v
                    ++ encode l).
        rewrite app_assoc.
        replace (len pre + 1) with (len (pre ++ [byte_of (code (opcode o))]))
          by (rewrite len_app; reflexivity).
        replace (imm_width (opcode o))
          with (len (to_bytes_big (Z.to_nat (imm_width (opcode o))) v)) at 2
          by (unfold len; rewrite length_to_bytes_big; lia).
        rewrite slice_mid, int_from_to_bytes_big, Z2Nat.id by lia.
        apply Z.mod_small. exact Hr.
      - rewrite Hval. reflexivity. }
    rewrite Hop, Hcur, <- Hpc.
    replace (mkEVMOp (pc o) (opcode o) (value o)) with o by (destruct o; reflexivity).
    destruct (IH (pre ++ encode_op o)
                 (mkState (raw st) (pc o + 1 + imm_width (opcode o))
                          (ops st ++ [o]))) as (st' & Hrun & Hops).
    + cbn [raw]. rewrite Hraw, Henc, app_assoc. reflexivity.
    + cbn [cursor]. rewrite len_app, Hlen, Hpc. lia.
    + rewrite len_app, Hlen. exact Hwf.
    + exists st'. split; [exact Hrun|]. rewrite Hops. cbn [ops].
      rewrite <- app_assoc. reflexivity.
Qed.

(** C4. When [parse] returns on a byte buffer, each operation of the
    sequence starts where the one before it ends, that is at the previous
    [pc] plus 1 plus the previous opcode's immediate width (its code minus
    [PUSH1]'s plus 1 for a push-class opcode, 0 otherwise), and the [pc]
    values are strictly increasing. *)
Theorem pc_chain (bytecode : list byte) (handed : list EVMOp)
        (blocks : Blocks) :
  parse bytecode = Some (Returned handed blocks) ->
  (forall i o o',
      nth_error handed i = Some o -> nth_error handed (S i) = Some o' ->
      pc o' = pc o + (1 + imm_width (opcode o)))
  /\ (forall i j o o', (i < j)%nat ->
        nth_error handed i = Some o -> nth_error handed j = Some o' ->
        pc o < pc o').
Proof.
  intros Hp. destruct (parse_returned _ _ _ Hp) as (st & Hre & _ & Hops).
  pose proof (reaches_chained _ _ Hre) as Hch. rewrite Hops in Hch.
  split.
  - exact (chained_next _ _ _ Hch).
  - exact (chained_increasing _ _ _ Hch).
Qed.

(** C5. When the loop stands on a push-class opcode whose immediate width
    exceeds the bytes left after it, [parse] does not raise: it appends one
    last operation, whose operand is the big-endian number of the bytes that
    are left, and returns. *)
Theorem truncated_immediate (bytecode : list byte) (st : state)
        (op : OpCode) :
  reaches bytecode st ->
  has_more_bytes st = true ->
  opcode_by_value (current_byte st) = Some op ->
  is_push op = true ->
  len bytecode - (cursor st + 1) < imm_width op ->
  parse bytecode =
  Some (Returned
          (ops st ++
           [mkEVMOp (cursor st) op
              (Some (int_from_bytes
                       (skipn (Z.to_nat (cursor st + 1)) bytecode)))])
          (blocks_from_ops
             (ops st ++
              [mkEVMOp (cursor st) op
                 (Some (int_from_bytes
                          (skipn (Z.to_nat (cursor st + 1)) bytecode)))]))).
Proof.
  intros Hre Hm Hop Hp Hlen.
  apply (last_push bytecode st op Hre Hm Hop Hp). lia.
Qed.

(** C10. When the loop stands on the last byte of the buffer and that byte
    is a push-class opcode, [parse] appends one last operation whose operand
    is present and is 0, and returns. *)
Theorem push_at_end (bytecode : list byte) (st : state) (op : OpCode) :
  reaches bytecode st ->
  cursor st + 1 = len bytecode ->
  opcode_by_value (current_byte st) = Some op ->
  is_push op = true ->
  parse bytecode =
  Some (Returned (ops st ++ [mkEVMOp (cursor st) op (Some 0)])
          (blocks_from_ops (ops st ++ [mkEVMOp (cursor st) op (Some 0)]))).
Proof.
  intros Hre Hend Hop Hp.
  pose proof (reaches_raw _ _ Hre) as Hraw.
  pose proof (imm_width_push op Hp) as Hw.
  assert (Hm : has_more_bytes st = true).
  { unfold has_more_bytes. rewrite Hraw. apply Z.ltb_lt. lia. }
  rewrite (last_push bytecode st op Hre Hm Hop Hp) by lia.
  cbv zeta. rewrite Hend. unfold len. rewrite Nat2Z.id, skipn_all.
  reflexivity.
Qed.

(** C8, as amended. When the loop stands on a byte that no opcode is
    registered for, [parse] raises [LookupError] and hands no sequence to the
    block builder. (Such a byte inside the immediate of a push-class opcode
    is read as data: the loop never stands on it.) *)
Theorem unregistered_opcode_raises (bytecode : list byte) (st : state) :
  reaches bytecode st ->
  has_more_bytes st = true ->
  registered (current_byte st) = false ->
  parse bytecode = Some (Raised LookupError).
Proof.
  intros Hre Hm Hreg. unfold parse.
  rewrite (reaches_run _ _ Hre), run_eq, Hm, parse_step_eq.
  unfold registered in Hreg.
  destruct (opcode_by_value (current_byte st)); [discriminate|reflexivity].
Qed.

(** [parse] raises in no other case, and nothing but [LookupError]. *)
Lemma raised_only_by_lookup (bytecode : list byte) (e : exn) :
  parse bytecode = Some (Raised e) ->
  e = LookupError
  /\ exists st, reaches bytecode st /\ has_more_bytes st = true
                /\ registered (current_byte st) = false.
Proof.
  unfold parse. destruct (run (start bytecode)) as [[st|e']|] eqn:Hr;
    cbn; intros E; inversion E; subst.
  exact (run_raised bytecode _ _ (reaches_start bytecode) Hr).
Qed.

(** [parse] ends on every buffer. *)
Lemma parse_total (bytecode : list byte) :
  exists o, parse bytecode = Some o.
Proof.
  unfold parse. destruct (run_total (start bytecode)) as [r Hr].
  rewrite Hr. cbn. eauto.
Qed.

(** C7. A sequence of well-formed instructions over registered opcodes, laid
    out from offset 0, is what [parse] returns on its encoding. *)
Theorem encode_parse_roundtrip (l : list EVMOp) :
  well_formed 0 l ->
  parse (encode l) = Some (Returned l (blocks_from_ops l)).
Proof.
  intros Hwf. unfold parse.
  destruct (run_encode l [] (start (encode l))) as (st' & Hrun & Hops);
    [reflexivity|reflexivity|exact Hwf|].
  rewrite Hrun. cbn in *. rewrite Hops. reflexivity.
Qed.

(** Every operation the loop has appended has an operand exactly when its
    opcode is push-class. *)
Lemma reaches_operand (bytecode : list byte) (st : state) :
  reaches bytecode st ->
  forall o, In o (ops st) ->
  (value o <> None <-> is_push (opcode o) = true).
Proof.
  induction 1 as [|st st' _ IH _ Hs]; intros o Hin; [destruct Hin|].
  rewrite parse_step_eq in Hs.
  destruct (opcode_by_value _) as [op|]; [|discriminate].
  inversion Hs; subst st'; cbn [ops] in Hin.
  apply in_app_or in Hin. destruct Hin as [Hin|[<-|[]]]; [auto|].
  cbn [value opcode]. unfold operand_at.
  destruct (is_push op); split; congruence.
Qed.

End Props.
End BytecodeProps.

(** ** Strings: [split] and [replace] on concatenations *)

Module StringFacts.

Local Open Scope string_scope.

Lemma append_nil_r (s : string) : s ++ "" = s.
Proof. induction s as [|c s IH]; cbn; [reflexivity|]. now rewrite IH. Qed.

Lemma append_assoc (a b c : string) : (a ++ b) ++ c = a ++ (b ++ c).
Proof. induction a as [|x a IH]; cbn; [reflexivity|]. now rewrite IH. Qed.

(** Induction on a string two characters at a time. *)
Lemma string_ind2 (P : string -> Prop) :
  P "" ->
  (forall c, P (String c "")) ->
  (forall c d s, P s -> P (String d s) -> P (String c (String d s))) ->
  forall s, P s.
Proof.
  intros H0 H1 H2 s.
  assert (Hboth : P s /\ forall c, P (String c s)).
  { induction s as [|d s [IHs IHc]]; split; auto. }
  exact (proj1 Hboth).
Qed.

Lemma all_chars_app (p : ascii -> bool) (a b : string) :
  all_chars p (a ++ b) = all_chars p a && all_chars p b.
Proof.
  induction a as [|c a IH]; cbn; [reflexivity|].
  rewrite IH. apply andb_assoc.
Qed.

(** *** [split] *)

(** Characters that are not whitespace extend the token being read. *)
Lemma split_from_token (t : string) :
  all_chars (fun c => negb (isspace c)) t = true ->
  forall cur r, split_from cur (t ++ r) = split_from (cur ++ t) r.
Proof.
  induction t as [|c t IH]; intros Ht cur r.
  - cbn. now rewrite append_nil_r.
  - cbn in Ht. apply andb_prop in Ht. destruct Ht as [Hc Ht].
    cbn [append split_from]. apply negb_true_iff in Hc. rewrite Hc.
    rewrite (IH Ht). f_equal. rewrite append_assoc. reflexivity.
Qed.

(** Whitespace between tokens is dropped. *)
Lemma split_from_blank (ws : string) :
  blank ws = true ->
  forall r, split_from "" (ws ++ r) = split_from "" r.
Proof.
  unfold blank. induction ws as [|c ws IH]; intros Hws r; [reflexivity|].
  cbn in Hws. apply andb_prop in Hws. destruct Hws as [Hc Hws].
  cbn [append split_from]. rewrite Hc. cbn. apply (IH Hws).
Qed.

Lemma flush_nonempty (t : string) : (t =? "") = false -> flush t = [t].
Proof. destruct t; [discriminate|reflexivity]. Qed.

(** A word is the first token of what it starts, when the rest breaks. *)
Lemma split_word (t r : string) :
  word t = true -> breaks r = true ->
  split (t ++ r) = t :: split r.
Proof.
  unfold word, split. intros Ht Hr.
  apply andb_prop in Ht. destruct Ht as [Ht _].
  apply andb_prop in Ht. destruct Ht as [Hne Ht].
  apply negb_true_iff in Hne.
  rewrite (split_from_token t Ht). cbn [append].
  destruct r as [|c r]; cbn in Hr |- *.
  - apply flush_nonempty. exact Hne.
  - rewrite Hr, (flush_nonempty t Hne). reflexivity.
Qed.

Lemma split_blank (ws r : string) :
  blank ws = true -> split (ws ++ r) = split r.
Proof. intros Hws. apply (split_from_blank ws Hws). Qed.

Lemma breaks_blank (ws r : string) :
  blank ws = true -> breaks r = true -> breaks (ws ++ r) = true.
Proof.
  destruct ws as [|c ws]; cbn; [auto|].
  intros Hws _. apply andb_prop in Hws. tauto.
Qed.

Lemma breaks_nonempty_blank (ws r : string) :
  blank ws = true -> (ws =? "") = false -> breaks (ws ++ r) = true.
Proof.
  destruct ws as [|c ws]; cbn; [discriminate|].
  intros Hws _. apply andb_prop in Hws. tauto.
Qed.

(** *** [replace] *)

Lemma replace2_cons2 (c1 c2 : ascii) (new : string) (x y : ascii) (s : string) :
  replace2 c1 c2 new (String x (String y s)) =
  if (x =? c1)%char && (y =? c2)%char
  then new ++ replace2 c1 c2 new s
  else String x (replace2 c1 c2 new (String y s)).
Proof. reflexivity. Qed.

(** Every occurrence is replaced, wherever it stands: the pass over what is
    before it and the pass over what is after it do not see each other. *)
Lemma replace2_occurrence (c1 c2 : ascii) (new : string) :
  c1 <> c2 ->
  forall a b,
  replace2 c1 c2 new (a ++ String c1 (String c2 b)) =
  replace2 c1 c2 new a ++ new ++ replace2 c1 c2 new b.
Proof.
  intros Hne a b. induction a as [|x|x y a IH1 IH2] using string_ind2.
  - cbn [append]. rewrite replace2_cons2, !Ascii.eqb_refl. reflexivity.
  - cbn [append]. rewrite replace2_cons2.
    destruct (Ascii.eqb_spec x c1) as [->|_]; cbn [andb].
    + destruct (Ascii.eqb_spec c1 c2) as [E|_]; [contradiction|].
      rewrite replace2_cons2, !Ascii.eqb_refl. reflexivity.
    + rewrite replace2_cons2, !Ascii.eqb_refl. reflexivity.
  - change (String x (String y a) ++ String c1 (String c2 b))
      with (String x (String y (a ++ String c1 (String c2 b)))).
    rewrite !replace2_cons2.
    destruct ((x =? c1)%char && (y =? c2)%char).
    + rewrite IH1, append_assoc. reflexivity.
    + change (String y (a ++ String c1 (String c2 b)))
        with (String y a ++ String c1 (String c2 b)).
      rewrite IH2. reflexivity.
Qed.

(** Without an occurrence nothing changes, also in front of a rest that
    does not start with the second character. *)
Lemma replace2_arrow_free (new a b : string) :
  arrow_free a = true ->
  match b with
  | String c _ => (c =? ">")%char = false
  | EmptyString => True
  end ->
  replace2 "=" ">" new (a ++ b) = a ++ replace2 "=" ">" new b.
Proof.
  intros Ha Hb. induction a as [|x|x y a _ IH2] using string_ind2.
  - reflexivity.
  - cbn [append]. destruct b as [|c b]; [reflexivity|].
    rewrite replace2_cons2, Hb, andb_false_r. reflexivity.
  - change (String x (String y a) ++ b) with (String x (String y (a ++ b))).
    cbn [arrow_free] in Ha. apply andb_prop in Ha. destruct Ha as [Hxy Ha].
    apply negb_true_iff in Hxy.
    rewrite replace2_cons2, Hxy.
    change (String y (a ++ b)) with (String y a ++ b).
    rewrite (IH2 Ha). reflexivity.
Qed.

Lemma replace2_blank (new ws b : string) :
  blank ws = true ->
  replace2 "=" ">" new (ws ++ b) = ws ++ replace2 "=" ">" new b.
Proof.
  unfold blank. induction ws as [|c ws IH]; intros Hws; [reflexivity|].
  cbn in Hws. apply andb_prop in Hws. destruct Hws as [Hc Hws].
  assert (Hceq : (c =? "=")%char = false).
  { destruct (Ascii.eqb_spec c "=") as [->|]; [discriminate|reflexivity]. }
  cbn [append]. destruct (ws ++ b) as [|d r] eqn:Hr.
  - destruct ws; [|discriminate]. cbn in Hr. subst b. reflexivity.
  - rewrite replace2_cons2, Hceq. cbn [andb]. rewrite (IH Hws).
    reflexivity.
Qed.

End StringFacts.

(** ** The tokens of a valid line *)

Module LineFacts.
Import StringFacts.

Local Open Scope string_scope.

Lemma isspace_not_gt (c : ascii) :
  isspace c = true -> (c =? ">")%char = false.
Proof.
  intros Hc. destruct (Ascii.eqb_spec c ">") as [->|]; [discriminate|].
  reflexivity.
Qed.

Lemma breaks_not_gt (b : string) :
  breaks b = true ->
  match b with
  | String c _ => (c =? ">")%char = false
  | EmptyString => True
  end.
Proof. destruct b as [|c b]; cbn; [auto|apply isspace_not_gt]. Qed.

Lemma word_arrow_free (t : string) : word t = true -> arrow_free t = true.
Proof. unfold word. intros Ht. apply andb_prop in Ht. tauto. Qed.

(** A word in front of a break is left as it is by the substitution. *)
Lemma replace_word (t b : string) :
  word t = true -> breaks b = true ->
  replace2 "=" ">" " " (t ++ b) = t ++ replace2 "=" ">" " " b.
Proof.
  intros Ht Hb. apply replace2_arrow_free.
  - apply word_arrow_free, Ht.
  - apply breaks_not_gt, Hb.
Qed.

Lemma replace_blank_end (ws : string) :
  blank ws = true -> replace2 "=" ">" " " ws = ws.
Proof.
  intros Hws. rewrite <- (append_nil_r ws) at 1.
  rewrite replace2_blank by exact Hws. apply append_nil_r.
Qed.

Lemma split_blank_end (ws : string) : blank ws = true -> split ws = [].
Proof.
  intros Hws. rewrite <- (append_nil_r ws).
  rewrite split_blank by exact Hws. reflexivity.
Qed.

Lemma breaks_of_blank (ws : string) : blank ws = true -> breaks ws = true.
Proof.
  intros Hws. rewrite <- (append_nil_r ws).
  apply breaks_blank; [exact Hws|reflexivity].
Qed.

Section Line2.
Variables lead t0 ws1 t1 trail : string.
Hypothesis Hlead : blank lead = true.
Hypothesis Ht0 : word t0 = true.
Hypothesis Hws1 : blank ws1 = true.
Hypothesis Hsep : (ws1 =? "") = false.
Hypothesis Ht1 : word t1 = true.
Hypothesis Htrail : blank trail = true.

(** The substitution leaves a two-token line as it is. *)
Lemma replace_line2 :
  replace2 "=" ">" " " (line2 lead t0 ws1 t1 trail)
  = line2 lead t0 ws1 t1 trail.
Proof.
  unfold line2.
  rewrite replace2_blank by exact Hlead.
  rewrite replace_word
    by (try exact Ht0; apply breaks_nonempty_blank; assumption).
  rewrite replace2_blank by exact Hws1.
  rewrite replace_word by (try exact Ht1; apply breaks_of_blank, Htrail).
  rewrite replace_blank_end by exact Htrail. reflexivity.
Qed.

Lemma split_line2 : split (line2 lead t0 ws1 t1 trail) = [t0; t1].
Proof.
  unfold line2.
  rewrite split_blank by exact Hlead.
  rewrite split_word
    by (try exact Ht0; apply breaks_nonempty_blank; assumption).
  rewrite split_blank by exact Hws1.
  rewrite split_word by (try exact Ht1; apply breaks_of_blank, Htrail).
  rewrite split_blank_end by exact Htrail. reflexivity.
Qed.

End Line2.

Lemma split_from_nonempty (r cur : string) :
  (cur =? "") = false -> (1 <= List.length (split_from cur r))%nat.
Proof.
  revert cur. induction r as [|c r IH]; intros cur Hcur.
  - cbn. rewrite (flush_nonempty cur Hcur). cbn. lia.
  - cbn. destruct (isspace c).
    + rewrite (flush_nonempty cur Hcur). cbn. lia.
    + apply IH. destruct cur; [discriminate|reflexivity].
Qed.

(** A word starts a token, whatever follows it. *)
Lemma split_starts_word (t r : string) :
  word t = true -> (1 <= List.length (split (t ++ r)))%nat.
Proof.
  unfold word, split. intros Ht.
  apply andb_prop in Ht. destruct Ht as [Ht _].
  apply andb_prop in Ht. destruct Ht as [Hne Ht].
  apply negb_true_iff in Hne.
  rewrite (split_from_token t Ht). cbn [append].
  apply split_from_nonempty. exact Hne.
Qed.

Lemma blank_arrow_not_gt (ws r : string) :
  blank ws = true ->
  match ws ++ String "=" r with
  | String c _ => (c =? ">")%char = false
  | EmptyString => True
  end.
Proof.
  destruct ws as [|c w]; cbn; [reflexivity|].
  intros Hws. apply andb_prop in Hws. apply isspace_not_gt. tauto.
Qed.

Section Line3.
Variables lead t0 ws1 t1 ws2 ws3 t2 trail : string.
Hypothesis Hlead : blank lead = true.
Hypothesis Ht0 : word t0 = true.
Hypothesis Hws1 : blank ws1 = true.
Hypothesis Hsep : (ws1 =? "") = false.
Hypothesis Ht1 : word t1 = true.
Hypothesis Hws2 : blank ws2 = true.
Hypothesis Hws3 : blank ws3 = true.
Hypothesis Ht2 : word t2 = true.
Hypothesis Htrail : blank trail = true.

(** The substitution turns the arrow of a three-token line into a blank. *)
Lemma replace_line3 :
  replace2 "=" ">" " " (line3 lead t0 ws1 t1 ws2 ws3 t2 trail)
  = lead ++ t0 ++ ws1 ++ t1 ++ ws2 ++ " " ++ ws3 ++ t2 ++ trail.
Proof.
  unfold line3.
  rewrite replace2_blank by exact Hlead.
  rewrite replace_word
    by (try exact Ht0; apply breaks_nonempty_blank; assumption).
  rewrite replace2_blank by exact Hws1.
  rewrite (replace2_arrow_free " " t1)
    by first [apply word_arrow_free, Ht1 | apply blank_arrow_not_gt, Hws2].
  rewrite replace2_blank by exact Hws2.
  change ("=>" ++ ws3 ++ t2 ++ trail)
    with (String "=" (String ">" (ws3 ++ t2 ++ trail))).
  rewrite replace2_cons2. cbn [Ascii.eqb Bool.eqb andb].
  rewrite replace2_blank by exact Hws3.
  rewrite replace_word by (try exact Ht2; apply breaks_of_blank, Htrail).
  rewrite replace_blank_end by exact Htrail. reflexivity.
Qed.

Lemma toks_line3 :
  split (replace2 "=" ">" " " (line3 lead t0 ws1 t1 ws2 ws3 t2 trail))
  = [t0; t1; t2].
Proof.
  rewrite replace_line3.
  rewrite split_blank by exact Hlead.
  rewrite split_word
    by (try exact Ht0; apply breaks_nonempty_blank; assumption).
  rewrite split_blank by exact Hws1.
  rewrite split_word
    by first [exact Ht1 | apply breaks_blank; [exact Hws2|reflexivity]].
  rewrite split_blank by exact Hws2.
  rewrite (split_blank " ") by reflexivity.
  rewrite split_blank by exact Hws3.
  rewrite split_word by (try exact Ht2; apply breaks_of_blank, Htrail).
  rewrite split_blank_end by exact Htrail. reflexivity.
Qed.

(** Before the substitution the line has two tokens at least. *)
Lemma split_line3 :
  (2 <= List.length (split (line3 lead t0 ws1 t1 ws2 ws3 t2 trail)))%nat.
Proof.
  unfold line3.
  rewrite split_blank by exact Hlead.
  rewrite split_word
    by (try exact Ht0; apply breaks_nonempty_blank; assumption).
  rewrite split_blank by exact Hws1.
  pose proof (split_starts_word t1
                (ws2 ++ "=>" ++ ws3 ++ t2 ++ trail) Ht1).
  cbn [List.length]. lia.
Qed.

End Line3.

End LineFacts.

(** ** Properties of [EVMDasmParser] *)

Module DasmProps.
Import EVMDasmParser StringFacts LineFacts.
Section Props.
Context `{BlockBuilder}.

(** A line of two tokens or more that an operation is built from is
    appended, and nothing is sent to the logger. *)
Lemma parse_line_appends (i : Z) (l : string) (st : state) (o : EVMOp) :
  (2 <= List.length (split l))%nat ->
  evm_op_from_dasm l = Ok o ->
  parse_line i l st = (append o st, None).
Proof.
  intros Hn Ho. unfold parse_line, len.
  destruct (Z.eqb_spec (Z.of_nat (List.length (split l))) 1); [lia|].
  destruct (Z.ltb_spec (Z.of_nat (List.length (split l))) 1); [lia|].
  rewrite Ho. reflexivity.
Qed.

(** A line of two tokens or more that the substitution leaves fewer than two
    tokens of leaves the loop with [NotImplementedError]. *)
Lemma parse_line_aborts (i : Z) (l : string) (st : state) :
  (2 <= List.length (split l))%nat ->
  (List.length (toks l) < 2)%nat ->
  parse_line i l st = (st, Some NotImplementedError).
Proof.
  intros Hn Ht. unfold parse_line, len.
  destruct (Z.eqb_spec (Z.of_nat (List.length (split l))) 1); [lia|].
  destruct (Z.ltb_spec (Z.of_nat (List.length (split l))) 1); [lia|].
  unfold evm_op_from_dasm.
  destruct (toks l) as [|t0 [|t1 r]]; [reflexivity|reflexivity|].
  cbn in Ht. lia.
Qed.

(** The operation built from a line, when one is. *)
Lemma evm_op_from_dasm_ok (l : string) (o : EVMOp) :
  evm_op_from_dasm l = Ok o ->
  (2 <= List.length (toks l))%nat
  /\ (value o <> None <-> 2 < len (toks l)).
Proof.
  unfold evm_op_from_dasm, len.
  destruct (toks l) as [|t0 [|t1 [|t2 r]]]; try discriminate.
  - destruct (int 10 t0); [|discriminate].
    destruct (opcode_by_name t1); [|discriminate].
    cbn. intros E. inversion E. cbn. split; [lia|].
    split; [congruence|lia].
  - destruct (int 10 t0); [|discriminate].
    destruct (opcode_by_name t1); [|discriminate].
    cbn [found bind]. destruct (int 16 t2); [|discriminate].
    cbn. intros E. inversion E. cbn. split; [lia|].
    split; [lia|congruence].
Qed.

(** Building an operation fails with [ValueError] or [LookupError] unless
    the line has fewer than two tokens after the substitution. *)
Lemma evm_op_from_dasm_raise (l : string) (e : exn) :
  evm_op_from_dasm l = Raise e ->
  (2 <= List.length (toks l))%nat ->
  e = ValueError \/ e = LookupError.
Proof.
  unfold evm_op_from_dasm.
  destruct (toks l) as [|t0 [|t1 [|t2 r]]]; cbn [List.length]; try lia.
  - unfold int. destruct (int_signed 10 _); cbn [bind].
    + destruct (opcode_by_name t1); cbn; intros E; inversion E; auto.
    + intros E; inversion E; auto.
  - unfold int. destruct (int_signed 10 _); cbn [bind].
    + destruct (opcode_by_name t1); cbn [found bind].
      * destruct (int_signed 16 _); cbn; intros E; inversion E; auto.
      * intros E; inversion E; auto.
    + intros E; inversion E; auto.
Qed.

(** A line of two tokens or more whose operation fails to be built with
    [ValueError] or [LookupError] is dropped: the traceback and one warning
    go to the logger, [_ops] is left as it is, and the loop goes on. *)
Lemma parse_line_recovers (i : Z) (l : string) (st : state) (e : exn) :
  (2 <= List.length (split l))%nat ->
  evm_op_from_dasm l = Raise e ->
  e = ValueError \/ e = LookupError ->
  parse_line i l st
  = (mkState (ops st) (diag st ++ [Log e; Warning (i + 1) (rstrip l)]), None).
Proof.
  intros Hn Ho He. unfold parse_line, len.
  destruct (Z.eqb_spec (Z.of_nat (List.length (split l))) 1); [lia|].
  destruct (Z.ltb_spec (Z.of_nat (List.length (split l))) 1); [lia|].
  rewrite Ho. destruct He as [-> | ->]; unfold emit, skipping; cbn;
    rewrite <- app_assoc; reflexivity.
Qed.

(** One line changes [_ops] by at most one operation, built from it. *)
Lemma parse_line_ops (i : Z) (l : string) (st st1 : state)
      (e : option exn) :
  parse_line i l st = (st1, e) ->
  ops st1 = ops st
  \/ exists o, evm_op_from_dasm l = Ok o /\ ops st1 = ops st ++ [o].
Proof.
  unfold parse_line.
  destruct (len (split l) =? 1); [intros E; inversion E; auto|].
  destruct (len (split l) <? 1); [intros E; inversion E; auto|].
  destruct (evm_op_from_dasm l) as [o|[| |]] eqn:Ho;
    intros E; inversion E; subst; cbn; eauto.
Qed.

Lemma parse_lines_ops (dasm : list string) :
  forall (i : Z) (st st1 : state) (e : option exn),
  parse_lines i dasm st = (st1, e) ->
  forall o, In o (ops st1) ->
  In o (ops st) \/ exists l, In l dasm /\ evm_op_from_dasm l = Ok o.
Proof.
  induction dasm as [|l dasm IH]; intros i st st1 e Hp o Hin.
  - cbn in Hp. inversion Hp; subst. auto.
  - cbn [parse_lines] in Hp.
    destruct (parse_line i l st) as [st2 [e2|]] eqn:Hl.
    + inversion Hp; subst.
      destruct (parse_line_ops _ _ _ _ _ Hl) as [E|(o' & Ho' & E)];
        rewrite E in Hin; [auto|].
      apply in_app_or in Hin. destruct Hin as [Hin|[<-|[]]]; [auto|].
      right. exists l. split; [left; reflexivity|exact Ho'].
    + destruct (IH _ _ _ _ Hp o Hin) as [Hin2|(l' & Hl' & Ho')].
      * destruct (parse_line_ops _ _ _ _ _ Hl) as [E|(o' & Ho' & E)];
          rewrite E in Hin2; [auto|].
        apply in_app_or in Hin2. destruct Hin2 as [Hin2|[<-|[]]]; [auto|].
        right. exists l. split; [left; reflexivity|exact Ho'].
      * right. exists l'. split; [right; exact Hl'|exact Ho'].
Qed.

(** The loop ends without an exception when no line of two tokens or more
    loses its second token to the substitution. *)
Lemma parse_lines_completes (dasm : list string) :
  (forall l, In l dasm ->
             (2 <= List.length (split l))%nat ->
             (2 <= List.length (toks l))%nat) ->
  forall (i : Z) (st : state), exists st', parse_lines i dasm st = (st', None).
Proof.
  induction dasm as [|l dasm IH]; intros Hok i st; [cbn; eauto|].
  cbn [parse_lines].
  assert (Hl : exists st1, parse_line i l st = (st1, None)).
  { unfold parse_line, len.
    destruct (Z.eqb_spec (Z.of_nat (List.length (split l))) 1); [eauto|].
    destruct (Z.ltb_spec (Z.of_nat (List.length (split l))) 1); [eauto|].
    destruct (evm_op_from_dasm l) as [o|e] eqn:Ho; [eauto|].
    assert (Ht : (2 <= List.length (toks l))%nat)
      by (apply Hok; [left; reflexivity|lia]).
    destruct (evm_op_from_dasm_raise l e Ho Ht) as [-> | ->]; eauto. }
  destruct Hl as [st1 Hl]. rewrite Hl. apply IH.
  intros l' Hin. apply Hok. right. exact Hin.
Qed.

(** C6. A valid line of two tokens, [PC MNEMONIC], appends the operation
    whose [pc] is the number written by the first token and whose opcode is
    the one the second token names, with no operand; a valid line of three
    tokens, [PC MNEMONIC => HEX], appends the operation whose operand is the
    base-16 number written by the third. *)
Theorem valid_line_appended (i : Z) (st : state)
        (lead pc_tok ws1 mnemonic trail : string) (p : Z) (op : OpCode) :
  blank lead = true -> word pc_tok = true ->
  blank ws1 = true -> (ws1 =? "")%string = false ->
  word mnemonic = true -> blank trail = true ->
  int 10 pc_tok = Ok p ->
  opcode_by_name mnemonic = Some op ->
  parse_line i (line2 lead pc_tok ws1 mnemonic trail) st
  = (append (mkEVMOp p op None) st, None)
  /\ forall (ws2 ws3 hex : string) (v : Z),
       blank ws2 = true -> blank ws3 = true -> word hex = true ->
       int 16 hex = Ok v ->
       parse_line i (line3 lead pc_tok ws1 mnemonic ws2 ws3 hex trail) st
       = (append (mkEVMOp p op (Some v)) st, None).
Proof.
  intros Hlead Ht0 Hws1 Hsep Ht1 Htrail Hp Hop. split.
  - apply parse_line_appends.
    + rewrite split_line2 by assumption. cbn. lia.
    + unfold evm_op_from_dasm, toks.
      rewrite replace_line2, split_line2 by assumption.
      rewrite Hp, Hop. reflexivity.
  - intros ws2 ws3 hex v Hws2 Hws3 Ht2 Hv. apply parse_line_appends.
    + apply split_line3; assumption.
    + unfold evm_op_from_dasm, toks.
      rewrite toks_line3 by assumption.
      rewrite Hp, Hop. cbn [found bind]. rewrite Hv. reflexivity.
Qed.

(** C3, as amended. The guard of the loop counts the tokens of the line as
    it is, with no substitution: a line of exactly one such token sends one
    warning to the logger, appends no operation, and the loop goes on; a
    line of any other number of tokens does not take this path. *)
Theorem one_token_line_skipped (i : Z) (l : string) (st : state) :
  (len (split l) = 1 ->
   parse_line i l st
   = (mkState (ops st) (diag st ++ [Warning (i + 1) (rstrip l)]), None))
  /\ (len (split l) <> 1 ->
      parse_line i l st
      <> (mkState (ops st) (diag st ++ [Warning (i + 1) (rstrip l)]), None)).
Proof.
  unfold parse_line. split; intros Hn.
  - rewrite Hn. reflexivity.
  - destruct (Z.eqb_spec (len (split l)) 1) as [|_]; [contradiction|].
    assert (Hself : forall (A : Type) (a : list A) (x : A), a ++ [x] <> a).
    { intros A a x E. apply (f_equal (@List.length A)) in E.
      rewrite length_app in E. cbn in E. lia. }
    destruct (len (split l) <? 1).
    + intros E. apply (f_equal (fun r => diag (fst r))) in E. cbn in E.
      symmetry in E. exact (Hself _ _ _ E).
    + destruct (evm_op_from_dasm l) as [o|[| |]]; intros E.
      * apply (f_equal (fun r => ops (fst r))) in E. cbn in E.
        exact (Hself _ _ _ E).
      * apply (f_equal (fun r => diag (fst r))) in E. cbn in E.
        apply app_inj_tail in E. destruct E as [E _].
        exact (Hself _ _ _ E).
      * apply (f_equal (fun r => diag (fst r))) in E. cbn in E.
        apply app_inj_tail in E. destruct E as [E _].
        exact (Hself _ _ _ E).
      * discriminate E.
Qed.

(** C2, as amended. An operation appended by [EVMBytecodeParser] has an
    operand exactly when its opcode is push-class; an operation appended by
    [EVMDasmParser] has an operand exactly when its line has more than two
    tokens, whatever its opcode. *)
Theorem operand_presence :
  (forall (bytecode : list byte) (st : EVMBytecodeParser.state) (o : EVMOp),
      reaches bytecode st -> In o (EVMBytecodeParser.ops st) ->
      (value o <> None <-> is_push (opcode o) = true))
  /\ (forall (dasm : list string) (st : state) (e : option exn) (o : EVMOp),
        parse_lines 0 dasm (mkState [] []) = (st, e) -> In o (ops st) ->
        exists l, In l dasm /\ evm_op_from_dasm l = Ok o
                  /\ (value o <> None <-> 2 < len (toks l))).
Proof.
  split.
  - intros bytecode st o Hre Hin.
    exact (BytecodeProps.reaches_operand bytecode st Hre o Hin).
  - intros dasm st e o Hp Hin.
    destruct (parse_lines_ops dasm _ _ _ _ Hp o Hin) as [[]|(l & Hl & Ho)].
    exists l. split; [exact Hl|]. split; [exact Ho|].
    exact (proj2 (evm_op_from_dasm_ok l o Ho)).
Qed.

End Props.
End DasmProps.

(** ** Numbers written in digits *)

Module IntFacts.

Local Open Scope string_scope.


Section Digits.
Variable base : Z.
Hypothesis Hbase : base <= 16.





End Digits.
End IntFacts.

(** ** The buffer of [EVMBytecodeParser] *)

Module InitProps.
Import EVMBytecodeParser StringFacts.

Local Open Scope string_scope.

Lemma fromhex_cons (c : ascii) (s : string) :
  fromhex (String c s) =
  if c_isspace c then fromhex s
  else
    match hex_value c, s with
    | Some top, String d s' =>
        match hex_value d with
        | Some bot =>
            bs <- fromhex s' ;; Ok (byte_of (top * 16 + bot) :: bs)
        | None => Raise ValueError
        end
    | _, _ => Raise ValueError
    end.
Proof. reflexivity. Qed.

Lemma c_isspace_not_hex (c : ascii) :
  c_isspace c = true -> hex_value c = None.
Proof.
  destruct c as [[] [] [] [] [] [] [] []]; cbv; intros E;
    try discriminate E; reflexivity.
Qed.

(** What [fromhex] accepts has an even number of hexadecimal digits. *)
Lemma fromhex_even (s : string) :
  forall bs, fromhex s = Ok bs -> Nat.even (hex_digits s) = true.
Proof.
  induction s as [|c|c d s IH1 IH2] using string_ind2; intros bs.
  - reflexivity.
  - rewrite fromhex_cons. destruct (c_isspace c) eqn:Hc.
    + cbn [hex_digits]. rewrite (c_isspace_not_hex c Hc). reflexivity.
    + destruct (hex_value c); discriminate.
  - rewrite fromhex_cons. destruct (c_isspace c) eqn:Hc.
    + intros E. cbn [hex_digits]. rewrite (c_isspace_not_hex c Hc).
      exact (IH2 bs E).
    + destruct (hex_value c) as [top|] eqn:Htop; [|discriminate].
      destruct (hex_value d) as [bot|] eqn:Hbot; [|discriminate].
      destruct (fromhex s) as [bs'|] eqn:Hs; [|discriminate].
      intros _. cbn [hex_digits]. rewrite Htop, Hbot.
      cbn [Nat.even]. exact (IH1 bs' eq_refl).
Qed.

(** [fromhex] raises nothing but [ValueError]. *)
Lemma fromhex_raise (s : string) :
  forall e, fromhex s = Raise e -> e = ValueError.
Proof.
  induction s as [|c|c d s IH1 IH2] using string_ind2; intros e.
  - discriminate.
  - rewrite fromhex_cons. destruct (c_isspace c); [discriminate|].
    destruct (hex_value c); intros E; inversion E; reflexivity.
  - rewrite fromhex_cons. destruct (c_isspace c); [apply IH2|].
    destruct (hex_value c); [|intros E; inversion E; reflexivity].
    destruct (hex_value d); [|intros E; inversion E; reflexivity].
    destruct (fromhex s) as [bs|e'] eqn:Hs; [discriminate|].
    cbn. intros E. inversion E; subst. apply IH1. reflexivity.
Qed.

(** C9. Every ["0x"] of a hex string is removed before the string is read,
    wherever it stands: the string is read as what is before an occurrence
    and what is after it, each with its own occurrences removed. So
    ["60010x"] and ["0x600x01"] give the bytes 60 01. A string that is left
    with an odd number of hexadecimal digits raises [ValueError]. *)
Theorem hex_string_normalised :
  (forall a b : string,
      init (inl (a ++ "0x" ++ b))
      = fromhex (replace2 "0" "x" "" a ++ replace2 "0" "x" "" b))
  /\ init (inl "60010x") = Ok [x60; x01]
  /\ init (inl "0x600x01") = Ok [x60; x01]
  /\ (forall s : string,
        Nat.odd (hex_digits (replace2 "0" "x" "" s)) = true ->
        init (inl s) = Raise ValueError).
Proof.
  split; [|split; [reflexivity|split; [reflexivity|]]].
  - intros a b. unfold init.
    change (a ++ "0x" ++ b) with (a ++ String "0" (String "x" b)).
    rewrite replace2_occurrence by discriminate. reflexivity.
  - intros s Hodd. unfold init.
    destruct (fromhex (replace2 "0" "x" "" s)) as [bs|e] eqn:Hf.
    + apply fromhex_even in Hf. rewrite <- Nat.negb_even, Hf in Hodd.
      discriminate.
    + apply fromhex_raise in Hf. subst e. reflexivity.
Qed.

End InitProps.

(** ** The properties on the table of the examples *)

Module Examples.
Import Table.

Local Open Scope string_scope.

(** C1: a line whose second token is an arrow passes the token count of the
    loop, then has one token left for [evm_op_from_dasm], whose
    [NotImplementedError] the loop does not catch: [parse] raises, and the
    valid lines around it are lost. *)
Theorem arrow_after_pc_aborts_parse :
  EVMDasmParser.parse ["0 ADD"; "1 =>"; "2 ADD"]
  = (Raised NotImplementedError, []).
Proof. vm_compute. reflexivity. Qed.

(** C2, the claim as stated fails: the text parser gives the operand of the
    line to an opcode that is not push-class, and none to a push-class
    opcode written without one. *)
Lemma operand_not_tied_to_push_in_text :
  EVMDasmParser.parse ["0 ADD => 01"; "1 PUSH1"]
  = (Returned [evm_op 0 ADD (Some 1); evm_op 1 PUSH1 None]
       [evm_op 0 ADD (Some 1); evm_op 1 PUSH1 None], [])
  /\ is_push ADD = false /\ is_push PUSH1 = true.
Proof. vm_compute. auto. Qed.

Lemma operand_presence_witness :
  (value (evm_op 0 PUSH1 (Some 1)) <> None
   <-> is_push (opcode (evm_op 0 PUSH1 (Some 1))) = true)
  /\ (value (evm_op 2 ADD None) <> None
      <-> is_push (opcode (evm_op 2 ADD None)) = true).
Proof.
  assert (Hre : reaches [x60; x01; x01]
                  (EVMBytecodeParser.mkState (H:=opcodes) [x60; x01; x01] 3
                     [evm_op 0 PUSH1 (Some 1); evm_op 2 ADD None])).
  { apply (reaches_step (H:=opcodes) _
             (EVMBytecodeParser.mkState (H:=opcodes) [x60; x01; x01] 2
                [evm_op 0 PUSH1 (Some 1)])); [|reflexivity|reflexivity].
    apply (reaches_step (H:=opcodes) _
             (EVMBytecodeParser.start (H:=opcodes) [x60; x01; x01]));
      [apply reaches_start|reflexivity|reflexivity]. }
  split;
    apply (proj1 (DasmProps.operand_presence (H:=opcodes)) _ _ _ Hre);
    cbn; auto.
Defined.

(** C3, the claim as stated fails: after the substitution ["=>"] has no
    token and ["0=>ADD"] has two, yet both take the path of the one-token
    line, for the guard counts the tokens of the line as it is. *)
Lemma guard_counts_raw_tokens :
  len (EVMDasmParser.toks "=>") = 0
  /\ EVMDasmParser.parse_line 0 "=>" (EVMDasmParser.mkState [] [])
     = (EVMDasmParser.mkState [] [Warning 1 "=>"], None)
  /\ len (EVMDasmParser.toks "0=>ADD") = 2
  /\ EVMDasmParser.parse_line 0 "0=>ADD" (EVMDasmParser.mkState [] [])
     = (EVMDasmParser.mkState [] [Warning 1 "0=>ADD"], None).
Proof. vm_compute. auto. Qed.

Lemma one_token_line_skipped_witness :
  EVMDasmParser.parse_line 1 "garbage  " (EVMDasmParser.mkState [] [])
  = (EVMDasmParser.mkState [] [Warning 2 "garbage"], None).
Proof.
  apply (proj1 (DasmProps.one_token_line_skipped (H:=opcodes) 1 "garbage  "
                  (EVMDasmParser.mkState [] []))).
  reflexivity.
Defined.

Lemma pc_chain_witness :
  (forall i o o',
      nth_error [evm_op 0 PUSH1 (Some 1); evm_op 2 PUSH2 (Some 258);
                 evm_op 5 ADD None] i = Some o ->
      nth_error [evm_op 0 PUSH1 (Some 1); evm_op 2 PUSH2 (Some 258);
                 evm_op 5 ADD None] (S i) = Some o' ->
      pc o' = pc o + (1 + imm_width (opcode o)))
  /\ (forall i j o o', (i < j)%nat ->
        nth_error [evm_op 0 PUSH1 (Some 1); evm_op 2 PUSH2 (Some 258);
                   evm_op 5 ADD None] i = Some o ->
        nth_error [evm_op 0 PUSH1 (Some 1); evm_op 2 PUSH2 (Some 258);
                   evm_op 5 ADD None] j = Some o' ->
        pc o < pc o').
Proof.
  apply (BytecodeProps.pc_chain (H:=opcodes) (H0:=builder) [x60; x01; x61; x01; x02; x01]
           [evm_op 0 PUSH1 (Some 1); evm_op 2 PUSH2 (Some 258);
            evm_op 5 ADD None]
           [evm_op 0 PUSH1 (Some 1); evm_op 2 PUSH2 (Some 258);
            evm_op 5 ADD None]).
  reflexivity.
Defined.

Lemma truncated_immediate_witness :
  EVMBytecodeParser.parse [x01; x61; x05]
  = Some (Returned [evm_op 0 ADD None; evm_op 1 PUSH2 (Some 5)]
            [evm_op 0 ADD None; evm_op 1 PUSH2 (Some 5)]).
Proof.
  apply (BytecodeProps.truncated_immediate (H:=opcodes) (H0:=builder) [x01; x61; x05]
           (EVMBytecodeParser.mkState (H:=opcodes) [x01; x61; x05] 1 [evm_op 0 ADD None])
           PUSH2);
    [|reflexivity|reflexivity|reflexivity|reflexivity].
  apply (reaches_step (H:=opcodes) _ (EVMBytecodeParser.start (H:=opcodes) [x01; x61; x05]));
    [apply reaches_start|reflexivity|reflexivity].
Defined.

Lemma push_at_end_witness :
  EVMBytecodeParser.parse [x01; x61]
  = Some (Returned [evm_op 0 ADD None; evm_op 1 PUSH2 (Some 0)]
            [evm_op 0 ADD None; evm_op 1 PUSH2 (Some 0)]).
Proof.
  apply (BytecodeProps.push_at_end (H:=opcodes) (H0:=builder) [x01; x61]
           (EVMBytecodeParser.mkState (H:=opcodes) [x01; x61] 1 [evm_op 0 ADD None])
           PUSH2);
    [|reflexivity|reflexivity|reflexivity].
  apply (reaches_step (H:=opcodes) _ (EVMBytecodeParser.start (H:=opcodes) [x01; x61]));
    [apply reaches_start|reflexivity|reflexivity].
Defined.

(** C8, the claim as stated fails: the byte 0x0c has no opcode, the buffer
    60 0c holds it, and [parse] returns, for the byte is the immediate of
    [PUSH1]. *)
Lemma unregistered_immediate_byte_parses :
  In x0c [x60; x0c]
  /\ registered (byte_val x0c) = false
  /\ EVMBytecodeParser.parse [x60; x0c]
     = Some (Returned [evm_op 0 PUSH1 (Some 12)]
               [evm_op 0 PUSH1 (Some 12)]).
Proof. vm_compute. auto. Qed.

Lemma unregistered_opcode_raises_witness :
  EVMBytecodeParser.parse [x01; x0c; x60] = Some (Raised LookupError).
Proof.
  apply (BytecodeProps.unregistered_opcode_raises (H:=opcodes) (H0:=builder) [x01; x0c; x60]
           (EVMBytecodeParser.mkState (H:=opcodes) [x01; x0c; x60] 1
              [evm_op 0 ADD None]));
    [|reflexivity|reflexivity].
  apply (reaches_step (H:=opcodes) _ (EVMBytecodeParser.start (H:=opcodes) [x01; x0c; x60]));
    [apply reaches_start|reflexivity|reflexivity].
Defined.

Lemma encode_parse_roundtrip_witness :
  encode [evm_op 0 PUSH1 (Some 1); evm_op 2 PUSH2 (Some 258);
          evm_op 5 ADD None]
  = [x60; x01; x61; x01; x02; x01]
  /\ EVMBytecodeParser.parse
       (encode [evm_op 0 PUSH1 (Some 1); evm_op 2 PUSH2 (Some 258);
                evm_op 5 ADD None])
     = Some (Returned
               [evm_op 0 PUSH1 (Some 1); evm_op 2 PUSH2 (Some 258);
                evm_op 5 ADD None]
               [evm_op 0 PUSH1 (Some 1); evm_op 2 PUSH2 (Some 258);
                evm_op 5 ADD None]).
Proof.
  split; [reflexivity|].
  apply (BytecodeProps.encode_parse_roundtrip (H:=opcodes) (H0:=builder)
           [evm_op 0 PUSH1 (Some 1); evm_op 2 PUSH2 (Some 258);
            evm_op 5 ADD None]).
  cbn. unfold well_formed_op. cbn.
  repeat split; try reflexivity; try discriminate; lia.
Defined.

Lemma valid_line_appended_witness :
  EVMDasmParser.parse_line 0 "12 PUSH1" (EVMDasmParser.mkState [] [])
  = (EVMDasmParser.mkState [evm_op 12 PUSH1 None] [], None)
  /\ EVMDasmParser.parse_line 0 "12 PUSH1 => ff"
       (EVMDasmParser.mkState [] [])
     = (EVMDasmParser.mkState [evm_op 12 PUSH1 (Some 255)] [], None).
Proof.
  destruct (DasmProps.valid_line_appended (H:=opcodes) 0 (EVMDasmParser.mkState [] [])
              "" "12" " " "PUSH1" "" 12 PUSH1
              eq_refl eq_refl eq_refl eq_refl eq_refl eq_refl eq_refl eq_refl)
    as [H2 H3].
  split; [exact H2|].
  exact (H3 " " " " "ff" 255 eq_refl eq_refl eq_refl eq_refl).
Defined.

Lemma hex_string_normalised_witness :
  EVMBytecodeParser.init (inl "0x600") = Raise ValueError.
Proof.
  apply (proj2 (proj2 (proj2 InitProps.hex_string_normalised)) "0x600").
  reflexivity.
Defined.

End Examples.

(** ** More on [EVMBytecodeParser]: the cursor, the operations, the buffer *)

Module BytecodeMore.
Import EVMBytecodeParser BytecodeFacts.
Section More.
Context `{BlockBuilder}.

Lemma firstn_plus {A : Type} (x y : nat) (l : list A) :
  firstn (x + y) l = firstn x l ++ firstn y (skipn x l).
Proof.
  revert l. induction x as [|x IH]; intros l; [reflexivity|].
  destruct l as [|a l]; cbn; [now rewrite firstn_nil|].
  now rewrite IH.
Qed.

(** A slice is cut in two at an index between its ends. *)
Lemma slice_split {A : Type} (l : list A) (a b c : Z) :
  0 <= a -> a <= b -> b <= c ->
  slice l a c = slice l a b ++ slice l b c.
Proof.
  intros Ha Hab Hbc. rewrite !slice_nonneg by lia.
  replace (Z.to_nat (c - a)) with (Z.to_nat (b - a) + Z.to_nat (c - b))%nat
    by lia.
  rewrite firstn_plus, skipn_skipn.
  replace (Z.to_nat (b - a) + Z.to_nat a)%nat with (Z.to_nat b) by lia.
  reflexivity.
Qed.

Lemma len_slice {A : Type} (l : list A) (lo hi : Z) :
  0 <= lo -> lo <= hi ->
  len (slice l lo hi) = Z.max 0 (Z.min (hi - lo) (len l - lo)).
Proof.
  intros Hlo Hhi. rewrite slice_nonneg by lia. unfold len.
  rewrite length_firstn, length_skipn. lia.
Qed.


(** X2. Two calls of [__consume] in a row hand over, one after the other,
    the bytes that one call for the sum hands over, and leave the parser in
    the same state. *)
Theorem consume_twice (n m : Z) (st : state) :
  0 <= n -> 0 <= m -> 0 <= cursor st ->
  fst (consume (n + m) st)
  = fst (consume n st) ++ fst (consume m (snd (consume n st)))
  /\ snd (consume (n + m) st) = snd (consume m (snd (consume n st))).
Proof.
  intros Hn Hm Hc. unfold consume. cbn [fst snd cursor raw ops].
  rewrite Z.add_assoc. split; [|reflexivity].
  apply slice_split; lia.
Qed.

(** X3. [parse] ends on every buffer, with any table of opcodes: each turn
    of its loop moves the cursor forward, so the loop returns or raises
    within as many turns as the buffer has bytes. *)
Theorem parse_terminates (bytecode : list byte) :
  exists o, parse bytecode = Some o.
Proof.
  unfold parse. destruct (run_total (start bytecode)) as [r Hr].
  rewrite Hr. cbn. eauto.
Qed.

(** X4. When [parse] raises, the exception is [LookupError] and the loop
    stood on a byte that no opcode is registered for. *)
Theorem parse_raises_only_lookup (bytecode : list byte) (e : exn) :
  parse bytecode = Some (Raised e) ->
  e = LookupError
  /\ exists st, reaches bytecode st /\ has_more_bytes st = true
                /\ registered (current_byte st) = false.
Proof.
  unfold parse. destruct (run (start bytecode)) as [[st|e']|] eqn:Hr;
    cbn; intros E; inversion E; subst.
  exact (BytecodeProps.run_raised bytecode _ _ (reaches_start bytecode) Hr).
Qed.

(** Every operation the loop has appended is the instruction of the buffer
    at its [pc]. *)
Lemma reaches_decoded (bytecode : list byte) (st : state) :
  reaches bytecode st -> Forall (decoded_at bytecode) (ops st).
Proof.
  induction 1 as [|st st' Hre IH Hm Hs]; [constructor|].
  pose proof (reaches_raw _ _ Hre) as Hraw.
  pose proof (reaches_cursor _ _ Hre) as Hc.
  rewrite parse_step_eq in Hs.
  destruct (opcode_by_value (current_byte st)) as [op|] eqn:Hop;
    [|discriminate].
  inversion Hs; subst st'; cbn [ops].
  apply Forall_app. split; [exact IH|]. constructor; [|constructor].
  unfold has_more_bytes in Hm. apply Z.ltb_lt in Hm. rewrite Hraw in Hm.
  unfold decoded_at. cbn [pc opcode value].
  split; [lia|]. split.
  - unfold current_byte in Hop. rewrite Hraw in Hop. exact Hop.
  - unfold operand_at. rewrite Hraw. reflexivity.
Qed.

(** X5. Every operation of the sequence that [parse] returns is the
    instruction of the buffer at its [pc]: the [pc] is an offset inside the
    buffer, the opcode is the one registered for the byte at that offset,
    and the operand is the big-endian number on the bytes that follow, as
    many as the immediate is wide or as are left, for a push-class opcode,
    and absent otherwise. *)
Theorem operations_decoded (bytecode : list byte) (handed : list EVMOp)
        (blocks : Blocks) :
  parse bytecode = Some (Returned handed blocks) ->
  Forall (decoded_at bytecode) handed.
Proof.
  intros Hp.
  destruct (BytecodeProps.parse_returned _ _ _ Hp) as (st & Hre & _ & Hops).
  rewrite <- Hops. apply reaches_decoded. exact Hre.
Qed.

Lemma int_from_bytes_range (bs : list byte) :
  0 <= int_from_bytes bs < 256 ^ len bs.
Proof.
  induction bs as [|b bs IH] using rev_ind; [cbn; lia|].
  rewrite int_from_bytes_snoc, len_app.
  change (len [b]) with 1.
  rewrite Z.pow_add_r by (pose proof (len_nonneg bs); lia).
  pose proof (byte_val_range b). lia.
Qed.

(** X6. The operand of an operation that [parse] returns is a number of as
    many bytes as the immediate of its opcode is wide: it is not negative
    and below [256 ^ width], also when the buffer ends inside the
    immediate. *)
Theorem operand_fits_width (bytecode : list byte) (handed : list EVMOp)
        (blocks : Blocks) (o : EVMOp) (v : Z) :
  parse bytecode = Some (Returned handed blocks) ->
  In o handed -> value o = Some v ->
  0 <= v < 256 ^ imm_width (opcode o).
Proof.
  intros Hp Hin Hv.
  destruct (BytecodeProps.parse_returned _ _ _ Hp) as (st & Hre & _ & Hops).
  pose proof (reaches_decoded _ _ Hre) as Hall. rewrite Hops in Hall.
  rewrite Forall_forall in Hall. destruct (Hall o Hin) as (Hpc & _ & Hval).
  rewrite Hv in Hval. destruct (is_push (opcode o)); [|discriminate].
  inversion Hval as [Hv']. clear Hval.
  pose proof (imm_width_nonneg (opcode o)) as Hw.
  set (bs := slice bytecode (pc o + 1) (pc o + 1 + imm_width (opcode o))).
  pose proof (int_from_bytes_range bs) as Hr.
  assert (Hlen : len bs <= imm_width (opcode o)).
  { unfold bs. rewrite len_slice by lia. lia. }
  pose proof (len_nonneg bs) as Hl.
  pose proof (Z.pow_le_mono_r 256 (len bs) (imm_width (opcode o))
                ltac:(lia) Hlen).
  lia.
Qed.

Lemma reaches_count (bytecode : list byte) (st : state) :
  reaches bytecode st ->
  len (ops st) <= cursor st /\ len (ops st) <= len bytecode.
Proof.
  induction 1 as [|st st' Hre [IH1 IH2] Hm Hs].
  - pose proof (len_nonneg bytecode). cbn [start ops cursor].
    change (len (@nil EVMOp)) with 0. lia.
  - pose proof (reaches_raw _ _ Hre) as Hraw.
    rewrite parse_step_eq in Hs.
    destruct (opcode_by_value (current_byte st)) as [op|]; [|discriminate].
    inversion Hs; subst st'; cbn [ops cursor].
    unfold has_more_bytes in Hm. apply Z.ltb_lt in Hm. rewrite Hraw in Hm.
    pose proof (imm_width_nonneg op). rewrite len_app.
    change (len [mkEVMOp (cursor st) op (operand_at st op)]) with 1. lia.
Qed.

(** X7. [parse] returns no more operations than the buffer has bytes. *)
Theorem no_more_operations_than_bytes (bytecode : list byte)
        (handed : list EVMOp) (blocks : Blocks) :
  parse bytecode = Some (Returned handed blocks) ->
  len handed <= len bytecode.
Proof.
  intros Hp.
  destruct (BytecodeProps.parse_returned _ _ _ Hp) as (st & Hre & _ & Hops).
  rewrite <- Hops. exact (proj2 (reaches_count _ _ Hre)).
Qed.

Lemma to_bytes_from_bytes (bs : list byte) :
  to_bytes_big (List.length bs) (int_from_bytes bs) = bs.
Proof.
  induction bs as [|b bs IH] using rev_ind; [reflexivity|].
  rewrite length_app, Nat.add_1_r, int_from_bytes_snoc.
  cbn [to_bytes_big]. pose proof (byte_val_range b) as Hb.
  rewrite Z.div_add_l, (Z.div_small (byte_val b)), Z.add_0_r, IH by lia.
  f_equal. f_equal. unfold byte_of.
  rewrite Z.add_comm, Z.mod_add, Z.mod_small by lia.
  unfold byte_val. rewrite N2Z.id, Byte.of_to_N. reflexivity.
Qed.

Lemma slice_from_0 {A : Type} (l : list A) (n : Z) :
  0 <= n -> slice l 0 n = firstn (Z.to_nat n) l.
Proof.
  intros Hn. rewrite slice_nonneg by lia. rewrite Z.sub_0_r. reflexivity.
Qed.

Lemma chained_end (p q q' : Z) (l : list EVMOp) :
  chained p l q -> chained p l q' -> q = q'.
Proof.
  induction 1 as [p|p o l q Hp _ IH]; intros Hc; inversion Hc; subst;
    [reflexivity|]. apply IH. assumption.
Qed.

Lemma encode_app (l1 l2 : list EVMOp) : encode (l1 ++ l2) = encode l1 ++ encode l2.
Proof. unfold encode. apply flat_map_app. Qed.

(** With a table in which each registered opcode has the code it is
    registered for, what has been appended encodes to the bytes before the
    cursor, as long as the cursor is inside the buffer. *)
Lemma reaches_encode (bytecode : list byte) (st : state) :
  (forall b op, opcode_by_value b = Some op -> code op = b) ->
  reaches bytecode st ->
  cursor st <= len bytecode ->
  encode (ops st) = firstn (Z.to_nat (cursor st)) bytecode.
Proof.
  intros Hcons. induction 1 as [|st st' Hre IH Hm Hs]; intros Hle;
    [reflexivity|].
  pose proof (reaches_raw _ _ Hre) as Hraw.
  pose proof (reaches_cursor _ _ Hre) as Hc.
  rewrite parse_step_eq in Hs.
  destruct (opcode_by_value (current_byte st)) as [op|] eqn:Hop;
    [|discriminate].
  inversion Hs; subst st'; cbn [ops cursor] in *.
  pose proof (imm_width_nonneg op) as Hw.
  rewrite encode_app, IH by lia.
  rewrite <- !slice_from_0 by lia.
  rewrite (slice_split bytecode 0 (cursor st) (cursor st + 1 + imm_width op))
    by lia.
  f_equal. cbn [encode flat_map]. rewrite app_nil_r.
  rewrite (slice_split bytecode (cursor st) (cursor st + 1)
             (cursor st + 1 + imm_width op)) by lia.
  unfold encode_op. cbn [opcode value].
  assert (Hone : [byte_of (code op)] = slice bytecode (cursor st) (cursor st + 1)).
  { rewrite (Hcons _ _ Hop). unfold current_byte. rewrite Hraw.
    pose proof (len_slice bytecode (cursor st) (cursor st + 1)
                  ltac:(lia) ltac:(lia)) as Hl.
    destruct (slice bytecode (cursor st) (cursor st + 1)) as [|b [|b' r]].
    - unfold len in *. cbn [List.length] in Hl. lia.
    - rewrite int_from_bytes_one, byte_of_val. reflexivity.
    - unfold len in *. cbn [List.length] in Hl. lia. }
  change (byte_of (code op) :: ?x) with ([byte_of (code op)] ++ x).
  rewrite Hone. f_equal. unfold operand_at. rewrite Hraw.
  revert Hw Hle. unfold imm_width. destruct (is_push op); intros Hw Hle.
  - set (bs := slice bytecode (cursor st + 1)
                 (cursor st + 1 + (code op - code PUSH1 + 1))).
    assert (Hl : Z.to_nat (code op - code PUSH1 + 1) = List.length bs).
    { assert (Hlen : len bs = code op - code PUSH1 + 1)
        by (unfold bs; rewrite len_slice by lia; lia).
      unfold len in Hlen. lia. }
    rewrite Hl. apply to_bytes_from_bytes.
  - rewrite Z.add_0_r. symmetry.
    pose proof (len_slice bytecode (cursor st + 1) (cursor st + 1)
                  ltac:(lia) ltac:(lia)) as Hl.
    destruct (slice bytecode (cursor st + 1) (cursor st + 1));
      [reflexivity|]. unfold len in *. cbn [List.length] in Hl. lia.
Qed.

(** X8. With a table in which each registered opcode has the code it is
    registered for, the sequence that [parse] returns on a buffer that ends
    with a whole instruction encodes back to the buffer. *)
Theorem parse_encode_roundtrip (bytecode : list byte)
        (handed : list EVMOp) (blocks : Blocks) :
  (forall b op, opcode_by_value b = Some op -> code op = b) ->
  parse bytecode = Some (Returned handed blocks) ->
  chained 0 handed (len bytecode) ->
  encode handed = bytecode.
Proof.
  intros Hcons Hp Hch.
  destruct (BytecodeProps.parse_returned _ _ _ Hp) as (st & Hre & _ & Hops).
  pose proof (BytecodeProps.reaches_chained _ _ Hre) as Hch'.
  rewrite Hops in Hch'. pose proof (chained_end _ _ _ _ Hch' Hch) as Hend.
  rewrite <- Hops, (reaches_encode bytecode st Hcons Hre) by lia.
  rewrite Hend. unfold len. rewrite Nat2Z.id. apply firstn_all.
Qed.

Lemma slice_app_l {A : Type} (l1 l2 : list A) (lo hi : Z) :
  0 <= lo -> lo <= hi -> hi <= len l1 ->
  slice (l1 ++ l2) lo hi = slice l1 lo hi.
Proof.
  intros Hlo Hhi Hin. rewrite !slice_nonneg by lia. unfold len in Hin.
  rewrite skipn_app, firstn_app, length_skipn.
  replace (Z.to_nat (hi - lo) - (List.length l1 - Z.to_nat lo))%nat
    with O by lia.
  rewrite firstn_O. apply app_nil_r.
Qed.

Lemma slice_app_r {A : Type} (l1 l2 : list A) (lo hi : Z) :
  0 <= lo -> lo <= hi ->
  slice (l1 ++ l2) (lo + len l1) (hi + len l1) = slice l2 lo hi.
Proof.
  intros Hlo Hhi. pose proof (len_nonneg l1) as Hl.
  rewrite !slice_nonneg by lia. unfold len in *.
  rewrite skipn_app, skipn_all2 by lia. cbn [app].
  replace (Z.to_nat (lo + Z.of_nat (List.length l1)) - List.length l1)%nat
    with (Z.to_nat lo) by lia.
  replace (hi + Z.of_nat (List.length l1) - (lo + Z.of_nat (List.length l1)))
    with (hi - lo) by lia.
  reflexivity.
Qed.

(** The turns on [b1] are turns on [b1 ++ b2] as long as the cursor stays
    inside [b1]. *)
Lemma reaches_prefix (b1 b2 : list byte) (st : state) :
  reaches b1 st -> cursor st <= len b1 ->
  reaches (b1 ++ b2) (mkState (b1 ++ b2) (cursor st) (ops st)).
Proof.
  induction 1 as [|st st' Hre IH Hm Hs]; intros Hle; [apply reaches_start|].
  pose proof (reaches_raw _ _ Hre) as Hraw.
  pose proof (reaches_cursor _ _ Hre) as Hc.
  rewrite parse_step_eq in Hs.
  destruct (opcode_by_value (current_byte st)) as [op|] eqn:Hop;
    [|discriminate].
  inversion Hs; subst st'; cbn [ops cursor] in *.
  pose proof (imm_width_nonneg op) as Hw.
  pose proof (len_nonneg b2) as Hb2.
  apply (reaches_step _ (mkState (b1 ++ b2) (cursor st) (ops st)));
    [apply IH; lia| |].
  - unfold has_more_bytes. cbn [raw cursor]. rewrite len_app.
    apply Z.ltb_lt. lia.
  - rewrite parse_step_eq. unfold current_byte, operand_at in *.
    cbn [raw cursor ops]. rewrite Hraw in *.
    rewrite (slice_app_l b1 b2 (cursor st) (cursor st + 1)) by lia.
    rewrite Hop.
    rewrite (slice_app_l b1 b2 (cursor st + 1)
               (cursor st + 1 + imm_width op)) by lia.
    reflexivity.
Qed.

(** A turn on [b2] is a turn of the parser on [b1 ++ b2] that has read
    [b1]. *)
Lemma parse_step_after (b1 : list byte) (ops1 : list EVMOp) (st : state) :
  0 <= cursor st ->
  parse_step (after b1 ops1 st)
  = match parse_step st with
    | Ok st' => Ok (after b1 ops1 st')
    | Raise e => Raise e
    end.
Proof.
  intros Hc. rewrite !parse_step_eq.
  assert (Hb : current_byte (after b1 ops1 st) = current_byte st).
  { unfold current_byte, after. cbn [raw cursor].
    replace (cursor st + len b1 + 1) with (cursor st + 1 + len b1) by lia.
    apply (f_equal int_from_bytes). apply slice_app_r; lia. }
  rewrite Hb. destruct (opcode_by_value (current_byte st)) as [op|];
    [|reflexivity].
  pose proof (imm_width_nonneg op) as Hw.
  unfold after. cbn [raw cursor ops]. f_equal. f_equal; [lia|].
  rewrite map_app, app_assoc. f_equal. cbn [map]. unfold shift.
  cbn [pc opcode value]. f_equal. f_equal.
  unfold operand_at. cbn [raw cursor]. destruct (is_push op); [|reflexivity].
  replace (cursor st + len b1 + 1) with (cursor st + 1 + len b1) by lia.
  replace (cursor st + 1 + len b1 + imm_width op)
    with (cursor st + 1 + imm_width op + len b1) by lia.
  rewrite slice_app_r by lia. reflexivity.
Qed.

Lemma parse_loop_after (b1 : list byte) (ops1 : list EVMOp) (fuel : nat) :
  forall st, 0 <= cursor st ->
  parse_loop fuel (after b1 ops1 st)
  = match parse_loop fuel st with
    | Some (Ok st') => Some (Ok (after b1 ops1 st'))
    | Some (Raise e) => Some (Raise e)
    | None => None
    end.
Proof.
  induction fuel as [|fuel IH]; intros st Hc.
  - cbn [parse_loop].
    assert (Hm : has_more_bytes (after b1 ops1 st) = has_more_bytes st).
    { unfold has_more_bytes, after. cbn [raw cursor]. rewrite len_app.
      destruct (Z.ltb_spec (cursor st) (len (raw st)));
        destruct (Z.ltb_spec (cursor st + len b1) (len b1 + len (raw st)));
        try reflexivity; lia. }
    rewrite Hm. destruct (has_more_bytes st); reflexivity.
  - cbn [parse_loop].
    assert (Hm : has_more_bytes (after b1 ops1 st) = has_more_bytes st).
    { unfold has_more_bytes, after. cbn [raw cursor]. rewrite len_app.
      destruct (Z.ltb_spec (cursor st) (len (raw st)));
        destruct (Z.ltb_spec (cursor st + len b1) (len b1 + len (raw st)));
        try reflexivity; lia. }
    rewrite Hm. destruct (has_more_bytes st); [|reflexivity].
    rewrite parse_step_after by exact Hc.
    destruct (parse_step st) as [st'|e] eqn:Hs; [|reflexivity].
    apply IH. pose proof (parse_step_cursor _ _ Hs). lia.
Qed.

(** X9. On a buffer made of two, of which the first ends with a whole
    instruction, [parse] gives the operations of the first buffer followed
    by those of the second moved by the length of the first; it raises when
    [parse] raises on the second. *)
Theorem parse_concat (b1 b2 : list byte) (ops1 : list EVMOp)
        (blocks1 : Blocks) :
  parse b1 = Some (Returned ops1 blocks1) ->
  chained 0 ops1 (len b1) ->
  parse (b1 ++ b2)
  = match parse b2 with
    | Some (Returned ops2 _) =>
        Some (Returned (ops1 ++ map (shift (len b1)) ops2)
                (blocks_from_ops (ops1 ++ map (shift (len b1)) ops2)))
    | Some (Raised e) => Some (Raised e)
    | None => None
    end.
Proof.
  intros Hp Hch.
  destruct (BytecodeProps.parse_returned _ _ _ Hp) as (st & Hre & _ & Hops).
  pose proof (BytecodeProps.reaches_chained _ _ Hre) as Hch'.
  rewrite Hops in Hch'. pose proof (chained_end _ _ _ _ Hch' Hch) as Hend.
  pose proof (reaches_prefix b1 b2 st Hre ltac:(lia)) as Hre2.
  rewrite Hops, Hend in Hre2.
  assert (Hst : mkState (b1 ++ b2) (len b1) ops1 = after b1 ops1 (start b2)).
  { unfold after, start. cbn [raw cursor ops map]. rewrite app_nil_r.
    reflexivity. }
  unfold parse. rewrite (reaches_run _ _ Hre2), Hst.
  unfold run at 1.
  replace (Z.to_nat (len (raw (after b1 ops1 (start b2)))
                     - cursor (after b1 ops1 (start b2))))
    with (Z.to_nat (len (raw (start b2)) - cursor (start b2)))
    by (unfold after; cbn [raw cursor start]; rewrite len_app; lia).
  rewrite parse_loop_after by (cbn; lia).
  unfold run. destruct (parse_loop _ (start b2)) as [[st2|e]|];
    reflexivity.
Qed.

End More.
End BytecodeMore.

(** ** More on [EVMDasmParser]: what the lines give, what is logged *)

Module DasmMore.
Import EVMDasmParser StringFacts LineFacts.
Section More.
Context `{BlockBuilder}.

(** A line with no token is a line of whitespace. *)
Lemma split_nil_blank (l : string) : split l = [] -> blank l = true.
Proof.
  unfold split, blank. induction l as [|c l IH]; [reflexivity|].
  cbn [split_from all_chars]. destruct (isspace c) eqn:Hc.
  - cbn [flush app]. intros E. rewrite (IH E). reflexivity.
  - intros E. pose proof (split_from_nonempty l (String c ""))
      as Hn. cbn [String.append] in E. rewrite E in Hn. cbn in Hn.
    specialize (Hn eq_refl). lia.
Qed.

Lemma len_split_blank (l : string) :
  (len (split l) <? 1) = true <-> blank l = true.
Proof.
  split.
  - intros Hl. apply split_nil_blank. apply Z.ltb_lt in Hl.
    destruct (split l); [reflexivity|]. unfold len in Hl.
    cbn [List.length] in Hl. lia.
  - intros Hb. rewrite (split_blank_end l Hb). reflexivity.
Qed.

(** X10. A line of whitespace only, or an empty one, changes nothing: no
    operation is appended and nothing is sent to the logger. *)
Theorem blank_line_silent (i : Z) (l : string) (st : state) :
  blank l = true -> parse_line i l st = (st, None).
Proof.
  intros Hb. unfold parse_line. rewrite (split_blank_end l Hb). reflexivity.
Qed.

(** What a line that does not leave the loop adds to [_ops]. *)
Lemma parse_line_none (i : Z) (l : string) (st st1 : state) :
  parse_line i l st = (st1, None) -> ops st1 = ops st ++ line_ops l.
Proof.
  unfold parse_line, line_ops.
  destruct (Z.eqb_spec (len (split l)) 1) as [E|Hne].
  - rewrite E. cbn. intros E'. inversion E'. cbn. now rewrite app_nil_r.
  - destruct (Z.ltb_spec (len (split l)) 1) as [Hlt|Hge].
    + destruct (Z.leb_spec 2 (len (split l))); [lia|].
      intros E'. inversion E'. now rewrite app_nil_r.
    + destruct (Z.leb_spec 2 (len (split l))); [|lia].
      destruct (evm_op_from_dasm l) as [o|[| |]];
        intros E'; inversion E'; cbn; try reflexivity;
        now rewrite app_nil_r.
Qed.

Lemma parse_lines_none (dasm : list string) :
  forall (i : Z) (st st1 : state),
  parse_lines i dasm st = (st1, None) ->
  ops st1 = ops st ++ flat_map line_ops dasm.
Proof.
  induction dasm as [|l dasm IH]; intros i st st1 Hp.
  - cbn in Hp. inversion Hp. cbn. now rewrite app_nil_r.
  - cbn [parse_lines] in Hp.
    destruct (parse_line i l st) as [st2 [e|]] eqn:Hl; [discriminate|].
    rewrite (IH _ _ _ Hp), (parse_line_none _ _ _ _ Hl).
    cbn [flat_map]. now rewrite app_assoc.
Qed.

(** X11. The sequence that [parse] hands to the block builder holds, in the
    order of the lines, the operation built from each line that has two
    tokens or more and that an operation can be built from, and nothing
    else. *)
Theorem operations_in_line_order (dasm : list string)
        (handed : list EVMOp) (blocks : Blocks) (d : list event) :
  parse dasm = (Returned handed blocks, d) ->
  handed = flat_map line_ops dasm /\ blocks = blocks_from_ops handed.
Proof.
  unfold parse.
  destruct (parse_lines 0 dasm (mkState [] [])) as [st [e|]] eqn:Hp;
    intros E; inversion E; subst.
  split; [|reflexivity]. exact (parse_lines_none dasm _ _ _ Hp).
Qed.

Lemma len_filter_snoc {A : Type} (p : A -> bool) (l : list A) (x : A) :
  len (filter p (l ++ [x])) = len (filter p l) + (if p x then 1 else 0).
Proof.
  rewrite filter_app, len_app. cbn [filter]. destruct (p x); reflexivity.
Qed.

Lemma parse_line_account (i : Z) (l : string) (st st1 : state) :
  parse_line i l st = (st1, None) ->
  len (ops st1) + len (filter is_warning (diag st1))
  = len (ops st) + len (filter is_warning (diag st))
    + (if blank l then 0 else 1).
Proof.
  unfold parse_line.
  destruct (Z.eqb_spec (len (split l)) 1) as [E|Hne].
  - assert (Hb : blank l = false).
    { destruct (blank l) eqn:Hb; [|reflexivity].
      rewrite (split_blank_end l Hb) in E. discriminate E. }
    rewrite Hb. intros E'. inversion E'. cbn [ops diag emit].
    rewrite len_filter_snoc. cbn. lia.
  - destruct (len (split l) <? 1) eqn:Hlt.
    + apply len_split_blank in Hlt. rewrite Hlt.
      intros E'. inversion E'. lia.
    + assert (Hb : blank l = false).
      { destruct (blank l) eqn:Hb; [|reflexivity].
        apply len_split_blank in Hb. congruence. }
      rewrite Hb.
      destruct (evm_op_from_dasm l) as [o|[| |]];
        intros E'; inversion E'; cbn [ops diag emit append];
        rewrite ?len_filter_snoc, ?len_app; cbn; try lia.
      all: change (len [o]) with 1; lia.
Qed.

Lemma parse_lines_account (dasm : list string) :
  forall (i : Z) (st st1 : state),
  parse_lines i dasm st = (st1, None) ->
  len (ops st1) + len (filter is_warning (diag st1))
  = len (ops st) + len (filter is_warning (diag st))
    + len (filter (fun l => negb (blank l)) dasm).
Proof.
  induction dasm as [|l dasm IH]; intros i st st1 Hp.
  - cbn in Hp. inversion Hp. cbn. lia.
  - cbn [parse_lines] in Hp.
    destruct (parse_line i l st) as [st2 [e|]] eqn:Hl; [discriminate|].
    rewrite (IH _ _ _ Hp), (parse_line_account _ _ _ _ Hl).
    cbn [filter]. destruct (blank l); cbn [negb]; [lia|].
    unfold len. cbn [List.length]. lia.
Qed.

(** X12. When [parse] returns, every line that is not blank has given one
    operation or one warning, and a blank line neither: the operations
    handed over and the warnings logged are together as many as the lines
    that are not blank. *)
Theorem one_operation_or_warning_per_line (dasm : list string)
        (handed : list EVMOp) (blocks : Blocks) (d : list event) :
  parse dasm = (Returned handed blocks, d) ->
  len handed + len (filter is_warning d)
  = len (filter (fun l => negb (blank l)) dasm).
Proof.
  unfold parse.
  destruct (parse_lines 0 dasm (mkState [] [])) as [st [e|]] eqn:Hp;
    intros E; inversion E; subst.
  rewrite (parse_lines_account dasm _ _ _ Hp). reflexivity.
Qed.

Lemma parse_line_warning (i : Z) (l : string) (st st1 : state)
      (e : option exn) (n : Z) (t : string) :
  parse_line i l st = (st1, e) ->
  In (Warning n t) (diag st1) ->
  In (Warning n t) (diag st) \/ (n = i + 1 /\ t = rstrip l).
Proof.
  unfold parse_line, emit, skipping.
  destruct (len (split l) =? 1).
  - intros E Hin. inversion E; subst. cbn in Hin.
    apply in_app_or in Hin. destruct Hin as [Hin|[Hin|[]]]; [auto|].
    inversion Hin. auto.
  - destruct (len (split l) <? 1); [intros E; inversion E; auto|].
    destruct (evm_op_from_dasm l) as [o|[| |]];
      intros E Hin; inversion E; subst; cbn in Hin; auto.
    + apply in_app_or in Hin. destruct Hin as [Hin|[Hin|[]]].
      * apply in_app_or in Hin.
        destruct Hin as [Hin|[Hin|[]]]; [auto|discriminate Hin].
      * inversion Hin. auto.
    + apply in_app_or in Hin. destruct Hin as [Hin|[Hin|[]]].
      * apply in_app_or in Hin.
        destruct Hin as [Hin|[Hin|[]]]; [auto|discriminate Hin].
      * inversion Hin. auto.
Qed.

Lemma parse_lines_warning (dasm : list string) :
  forall (i : Z) (st st1 : state) (e : option exn) (n : Z) (t : string),
  parse_lines i dasm st = (st1, e) ->
  In (Warning n t) (diag st1) ->
  In (Warning n t) (diag st)
  \/ exists k l, nth_error dasm k = Some l
                 /\ n = i + Z.of_nat k + 1 /\ t = rstrip l.
Proof.
  induction dasm as [|l dasm IH]; intros i st st1 e n t Hp Hin.
  - cbn in Hp. inversion Hp; subst. auto.
  - cbn [parse_lines] in Hp.
    destruct (parse_line i l st) as [st2 [e2|]] eqn:Hl.
    + inversion Hp; subst.
      destruct (parse_line_warning _ _ _ _ _ _ _ Hl Hin) as [Hd|[Hn Ht]];
        [auto|].
      right. exists O, l. cbn. split; [reflexivity|]. split; [lia|exact Ht].
    + destruct (IH _ _ _ _ _ _ Hp Hin) as [Hd|(k & l' & Hk & Hn & Ht)].
      * destruct (parse_line_warning _ _ _ _ _ _ _ Hl Hd) as [Hd'|[Hn Ht]];
          [auto|].
        right. exists O, l. cbn. split; [reflexivity|].
        split; [lia|exact Ht].
      * right. exists (S k), l'. cbn. split; [exact Hk|].
        split; [lia|exact Ht].
Qed.

(** X13. Every warning that [parse] logs, whether it returns or raises,
    names a line of the input by its position counted from 1, with the text
    of that line without the whitespace at its end. *)
Theorem warning_names_its_line (dasm : list string) (out : outcome)
        (d : list event) (n : Z) (t : string) :
  parse dasm = (out, d) ->
  In (Warning n t) d ->
  1 <= n <= len dasm
  /\ exists l, nth_error dasm (Z.to_nat (n - 1)) = Some l /\ t = rstrip l.
Proof.
  unfold parse.
  destruct (parse_lines 0 dasm (mkState [] [])) as [st e] eqn:Hp.
  intros E Hin.
  assert (Hd : d = diag st) by (destruct e; inversion E; reflexivity).
  subst d.
  destruct (parse_lines_warning dasm _ _ _ _ _ _ Hp Hin)
    as [[]|(k & l & Hk & Hn & Ht)].
  assert (Hlt : (k < List.length dasm)%nat)
    by (apply nth_error_Some; congruence).
  unfold len. split; [lia|]. exists l.
  replace (Z.to_nat (n - 1)) with k by lia. auto.
Qed.

(** A line leaves the loop only with [NotImplementedError], and only when
    it loses tokens to the substitution. *)
Lemma parse_line_some (i : Z) (l : string) (st st1 : state) (e : exn) :
  parse_line i l st = (st1, Some e) ->
  e = NotImplementedError /\ loses_tokens l = true.
Proof.
  unfold parse_line, loses_tokens.
  destruct (Z.eqb_spec (len (split l)) 1); [discriminate|].
  destruct (Z.ltb_spec (len (split l)) 1); [discriminate|].
  destruct (Z.leb_spec 2 (len (split l))); [|lia].
  destruct (evm_op_from_dasm l) as [o|e'] eqn:Ho; [discriminate|].
  destruct (Z.ltb_spec (len (toks l)) 2) as [Hlt|Hge].
  - destruct e'; intros E; inversion E. auto.
  - assert (Ht : (2 <= List.length (toks l))%nat)
      by (unfold len in Hge; lia).
    destruct (DasmProps.evm_op_from_dasm_raise l e' Ho Ht) as [-> | ->];
      discriminate.
Qed.

Lemma parse_line_loses (i : Z) (l : string) (st : state) :
  loses_tokens l = true ->
  parse_line i l st = (st, Some NotImplementedError).
Proof.
  unfold loses_tokens. intros Hl. apply andb_prop in Hl.
  destruct Hl as [H2 Ht]. apply Z.leb_le in H2. apply Z.ltb_lt in Ht.
  unfold len in *. apply DasmProps.parse_line_aborts; lia.
Qed.

Lemma parse_lines_some (dasm : list string) :
  forall (i : Z) (st st1 : state) (e : exn),
  parse_lines i dasm st = (st1, Some e) ->
  e = NotImplementedError
  /\ exists l, In l dasm /\ loses_tokens l = true.
Proof.
  induction dasm as [|l dasm IH]; intros i st st1 e Hp; [discriminate|].
  cbn [parse_lines] in Hp.
  destruct (parse_line i l st) as [st2 [e2|]] eqn:Hl.
  - inversion Hp; subst.
    destruct (parse_line_some _ _ _ _ _ Hl) as [He Hlose].
    split; [exact He|]. exists l. split; [left; reflexivity|exact Hlose].
  - destruct (IH _ _ _ _ Hp) as (He & l' & Hin & Hlose).
    split; [exact He|]. exists l'. split; [right; exact Hin|exact Hlose].
Qed.

Lemma parse_lines_loses (dasm : list string) (l : string) :
  In l dasm -> loses_tokens l = true ->
  forall (i : Z) (st : state),
  exists st1, parse_lines i dasm st = (st1, Some NotImplementedError).
Proof.
  intros Hin Hlose. induction dasm as [|l0 dasm IH]; [destruct Hin|].
  intros i st. cbn [parse_lines].
  destruct (parse_line i l0 st) as [st2 [e2|]] eqn:Hl.
  - destruct (parse_line_some _ _ _ _ _ Hl) as [-> _]. eauto.
  - destruct Hin as [->|Hin].
    + rewrite (parse_line_loses i l st Hlose) in Hl. discriminate.
    + apply (IH Hin).
Qed.

(** X14. [parse] raises exactly when some line has two tokens or more of
    which the substitution of ["=>"] leaves fewer than two, and the
    exception is then [NotImplementedError]: it never raises [ValueError]
    or [LookupError]. *)
Theorem parse_raises_on_lost_tokens (dasm : list string) :
  (forall (e : exn) (d : list event),
      parse dasm = (Raised e, d) ->
      e = NotImplementedError
      /\ exists l, In l dasm /\ loses_tokens l = true)
  /\ (forall l, In l dasm -> loses_tokens l = true ->
        exists d, parse dasm = (Raised NotImplementedError, d)).
Proof.
  unfold parse. split.
  - intros e d.
    destruct (parse_lines 0 dasm (mkState [] [])) as [st [e'|]] eqn:Hp;
      intros E; inversion E; subst.
    exact (parse_lines_some dasm _ _ _ _ Hp).
  - intros l Hin Hlose.
    destruct (parse_lines_loses dasm l Hin Hlose 0 (mkState [] []))
      as [st1 Hp].
    rewrite Hp. eauto.
Qed.

End More.
End DasmMore.

(** ** Digits: the numbers of a line, the bytes of a hex string *)

Module DigitsMore.
Import StringFacts LineFacts.

(** A digit of a base up to 16 is no whitespace of a line and no part of an
    arrow or of a ["0x"]. *)
Lemma digit_plain (c : ascii) :
  digit_below 16 c = true ->
  isspace c = false /\ c_isspace c = false
  /\ (c =? "=")%char = false /\ (c =? "x")%char = false
  /\ exists d, hex_value c = Some d.
Proof.
  destruct c as [[] [] [] [] [] [] [] []]; cbv; intros E;
    try discriminate E; repeat split; eauto.
Qed.


Lemma all_chars_impl (p q : ascii -> bool) (s : string) :
  (forall c, p c = true -> q c = true) ->
  all_chars p s = true -> all_chars q s = true.
Proof.
  intros Hpq. induction s as [|c s IH]; [reflexivity|].
  cbn [all_chars]. intros Hs. apply andb_prop in Hs. destruct Hs as [Hc Hs].
  rewrite (Hpq c Hc), (IH Hs). reflexivity.
Qed.



Section Lines.
Context `{BlockBuilder}.


End Lines.

Local Open Scope string_scope.

Lemma fromhex_ok (s : string) :
  forall bs, fromhex s = Ok bs ->
  all_chars hex_or_space s = true
  /\ Z.of_nat (hex_digits s) = (2 * len bs)%Z.
Proof.
  induction s as [|c|c d s IH1 IH2] using string_ind2; intros bs.
  - cbn. intros E. inversion E. auto.
  - rewrite InitProps.fromhex_cons. destruct (c_isspace c) eqn:Hc.
    + cbn [fromhex]. intros E. inversion E.
      cbn [all_chars hex_digits]. unfold hex_or_space.
      rewrite Hc, (InitProps.c_isspace_not_hex c Hc). auto.
    + destruct (hex_value c); discriminate.
  - rewrite InitProps.fromhex_cons. destruct (c_isspace c) eqn:Hc.
    + intros E. destruct (IH2 bs E) as [Ha Hn].
      cbn [all_chars hex_digits] in *. unfold hex_or_space at 1.
      rewrite Hc, (InitProps.c_isspace_not_hex c Hc). auto.
    + destruct (hex_value c) as [top|] eqn:Htop; [|discriminate].
      destruct (hex_value d) as [bot|] eqn:Hbot; [|discriminate].
      destruct (fromhex s) as [bs'|] eqn:Hs; [|discriminate].
      cbn [bind]. intros E. inversion E.
      destruct (IH1 bs' eq_refl) as [Ha Hn].
      cbn [all_chars hex_digits]. unfold hex_or_space at 1 2.
      rewrite Htop, Hbot, Ha, !orb_true_r. split; [reflexivity|].
      unfold len in *. cbn [List.length]. lia.
Qed.

(** X16. A hex string that [EVMBytecodeParser] accepts holds, once its
    ["0x"] are removed, nothing but hexadecimal digits and ASCII whitespace,
    and two digits for each byte of the buffer. *)
Theorem hex_string_accepted (s : string) (bs : list byte) :
  EVMBytecodeParser.init (inl s) = Ok bs ->
  all_chars hex_or_space (replace2 "0" "x" "" s) = true
  /\ Z.of_nat (hex_digits (replace2 "0" "x" "" s)) = (2 * len bs)%Z.
Proof. unfold EVMBytecodeParser.init. apply fromhex_ok. Qed.

Lemma replace2_no_second (c1 c2 : ascii) (new s : string) :
  all_chars (fun c => negb (c =? c2)%char) s = true ->
  replace2 c1 c2 new s = s.
Proof.
  induction s as [|a|a b s _ IH2] using string_ind2; intros Hs;
    [reflexivity|reflexivity|].
  cbn [all_chars] in Hs. apply andb_prop in Hs. destruct Hs as [_ Hs].
  pose proof Hs as Hs'. cbn [all_chars] in Hs'. apply andb_prop in Hs'.
  destruct Hs' as [Hb _]. apply negb_true_iff in Hb.
  rewrite replace2_cons2, Hb, andb_false_r, (IH2 Hs). reflexivity.
Qed.

Lemma fromhex_digits (s : string) :
  is_digits 16 s = true ->
  (exists bs, fromhex s = Ok bs) <-> Nat.even (String.length s) = true.
Proof.
  unfold is_digits.
  induction s as [|c|c d s IH1 _] using string_ind2; intros Hs.
  - cbn. split; eauto.
  - cbn [all_chars] in Hs. apply andb_prop in Hs. destruct Hs as [Hc _].
    destruct (digit_plain c Hc) as (_ & Hsp & _ & _ & dv & Hv).
    rewrite InitProps.fromhex_cons, Hsp, Hv. cbn.
    split; [intros [bs E]; discriminate|discriminate].
  - cbn [all_chars] in Hs. apply andb_prop in Hs. destruct Hs as [Hc Hs].
    apply andb_prop in Hs. destruct Hs as [Hd Hs].
    destruct (digit_plain c Hc) as (_ & Hsp & _ & _ & cv & Hcv).
    destruct (digit_plain d Hd) as (_ & _ & _ & _ & dv & Hdv).
    rewrite InitProps.fromhex_cons, Hsp, Hcv, Hdv.
    cbn [String.length Nat.even]. rewrite <- (IH1 Hs).
    destruct (fromhex s) as [bs'|e]; cbn [bind].
    + split; eauto.
    + split; intros [bs E]; discriminate.
Qed.

(** X17. A string of hexadecimal digits only is accepted by
    [EVMBytecodeParser] exactly when it has an even number of them. *)
Theorem hex_digits_accepted_iff_even (s : string) :
  is_digits 16 s = true ->
  (exists bs, EVMBytecodeParser.init (inl s) = Ok bs)
  <-> Nat.even (String.length s) = true.
Proof.
  intros Hs. unfold EVMBytecodeParser.init.
  rewrite replace2_no_second.
  - apply fromhex_digits. exact Hs.
  - unfold is_digits in Hs.
    apply (all_chars_impl _ _ s) with (2 := Hs). intros c Hc.
    destruct (digit_plain c Hc) as (_ & _ & _ & Hx & _). now rewrite Hx.
Qed.

End DigitsMore.

(** ** The further properties on the table of the examples *)

Module MoreExamples.
Import Table.

Local Open Scope string_scope.

(** In the table each registered opcode has the code it is registered
    for. *)
Lemma table_codes (b : Z) (o : op) : by_value b = Some o -> op_code o = b.
Proof.
  unfold by_value. intros Hf. apply find_some in Hf.
  destruct Hf as [_ Hf]. apply Z.eqb_eq. exact Hf.
Qed.


Lemma consume_twice_witness :
  fst (EVMBytecodeParser.consume (1 + 2)
         (EVMBytecodeParser.start (H:=opcodes) [x61; x01; x02; x00]))
  = ([x61] ++ [x01; x02])%list.
Proof.
  apply (proj1 (BytecodeMore.consume_twice (H:=opcodes) 1 2
                  (EVMBytecodeParser.start (H:=opcodes)
                     [x61; x01; x02; x00])
                  ltac:(lia) ltac:(lia) ltac:(cbn; lia))).
Defined.

Lemma parse_raises_only_lookup_witness :
  LookupError = LookupError
  /\ exists st, reaches [x01; x0c] st
                /\ EVMBytecodeParser.has_more_bytes st = true
                /\ registered (current_byte st) = false.
Proof.
  apply (BytecodeMore.parse_raises_only_lookup (H:=opcodes) (H0:=builder)
           [x01; x0c] LookupError).
  reflexivity.
Defined.

Lemma operations_decoded_witness :
  Forall (decoded_at [x60; x01; x61; x05])
    [evm_op 0 PUSH1 (Some 1); evm_op 2 PUSH2 (Some 5)].
Proof.
  apply (BytecodeMore.operations_decoded (H:=opcodes) (H0:=builder)
           [x60; x01; x61; x05]
           [evm_op 0 PUSH1 (Some 1); evm_op 2 PUSH2 (Some 5)]
           [evm_op 0 PUSH1 (Some 1); evm_op 2 PUSH2 (Some 5)]).
  reflexivity.
Defined.

Lemma operand_fits_width_witness :
  0 <= 5 < 256 ^ imm_width (opcode (evm_op 2 PUSH2 (Some 5))).
Proof.
  apply (BytecodeMore.operand_fits_width (H:=opcodes) (H0:=builder)
           [x60; x01; x61; x05]
           [evm_op 0 PUSH1 (Some 1); evm_op 2 PUSH2 (Some 5)]
           [evm_op 0 PUSH1 (Some 1); evm_op 2 PUSH2 (Some 5)]
           (evm_op 2 PUSH2 (Some 5)) 5);
    [reflexivity|right; left; reflexivity|reflexivity].
Defined.

Lemma no_more_operations_than_bytes_witness :
  len [evm_op 0 PUSH1 (Some 1); evm_op 2 PUSH2 (Some 5)]
  <= len [x60; x01; x61; x05].
Proof.
  apply (BytecodeMore.no_more_operations_than_bytes (H:=opcodes)
           (H0:=builder) [x60; x01; x61; x05]
           [evm_op 0 PUSH1 (Some 1); evm_op 2 PUSH2 (Some 5)]
           [evm_op 0 PUSH1 (Some 1); evm_op 2 PUSH2 (Some 5)]).
  reflexivity.
Defined.

Lemma parse_encode_roundtrip_witness :
  encode [evm_op 0 PUSH1 (Some 1); evm_op 2 PUSH2 (Some 258);
          evm_op 5 ADD None]
  = [x60; x01; x61; x01; x02; x01].
Proof.
  apply (BytecodeMore.parse_encode_roundtrip (H:=opcodes) (H0:=builder)
           [x60; x01; x61; x01; x02; x01]
           [evm_op 0 PUSH1 (Some 1); evm_op 2 PUSH2 (Some 258);
            evm_op 5 ADD None]
           [evm_op 0 PUSH1 (Some 1); evm_op 2 PUSH2 (Some 258);
            evm_op 5 ADD None]).
  - exact table_codes.
  - reflexivity.
  - apply chained_cons; [reflexivity|].
    apply chained_cons; [reflexivity|].
    apply chained_cons; [reflexivity|].
    apply chained_nil.
Defined.

Lemma parse_concat_witness :
  EVMBytecodeParser.parse ([x60; x01] ++ [x61; x05; x06; x01])%list
  = Some (Returned
            ([evm_op 0 PUSH1 (Some 1)]
             ++ map (shift 2)
                  [evm_op 0 PUSH2 (Some 1286); evm_op 3 ADD None])%list
            ([evm_op 0 PUSH1 (Some 1)]
             ++ map (shift 2)
                  [evm_op 0 PUSH2 (Some 1286); evm_op 3 ADD None])%list).
Proof.
  apply (BytecodeMore.parse_concat (H:=opcodes) (H0:=builder)
           [x60; x01] [x61; x05; x06; x01]
           [evm_op 0 PUSH1 (Some 1)] [evm_op 0 PUSH1 (Some 1)]).
  - reflexivity.
  - apply chained_cons; [reflexivity|]. apply chained_nil.
Defined.

Lemma blank_line_silent_witness :
  EVMDasmParser.parse_line 3 "   " (EVMDasmParser.mkState (H:=opcodes) [] [])
  = (EVMDasmParser.mkState [] [], None).
Proof.
  apply (DasmMore.blank_line_silent (H:=opcodes) 3 "   "
           (EVMDasmParser.mkState (H:=opcodes) [] [])).
  reflexivity.
Defined.

Lemma operations_in_line_order_witness :
  [evm_op 0 PUSH1 (Some 1); evm_op 2 ADD None]
  = flat_map line_ops ["0 PUSH1 => 01"; "junk"; "x ADD"; "2 ADD"].
Proof.
  apply (proj1 (DasmMore.operations_in_line_order (H:=opcodes) (H0:=builder)
                  ["0 PUSH1 => 01"; "junk"; "x ADD"; "2 ADD"]
                  [evm_op 0 PUSH1 (Some 1); evm_op 2 ADD None]
                  [evm_op 0 PUSH1 (Some 1); evm_op 2 ADD None]
                  [Warning 2 "junk"; Log ValueError; Warning 3 "x ADD"]
                  eq_refl)).
Defined.

Lemma one_operation_or_warning_per_line_witness :
  len [evm_op 0 PUSH1 (Some 1); evm_op 2 ADD None]
  + len (filter is_warning
           [Warning 2 "junk"; Log ValueError; Warning 4 "x ADD"])
  = len (filter (fun l => negb (blank l))
           ["0 PUSH1 => 01"; "junk"; "  "; "x ADD"; "2 ADD"]).
Proof.
  apply (DasmMore.one_operation_or_warning_per_line (H:=opcodes)
           (H0:=builder)
           ["0 PUSH1 => 01"; "junk"; "  "; "x ADD"; "2 ADD"]
           [evm_op 0 PUSH1 (Some 1); evm_op 2 ADD None]
           [evm_op 0 PUSH1 (Some 1); evm_op 2 ADD None]
           [Warning 2 "junk"; Log ValueError; Warning 4 "x ADD"]).
  reflexivity.
Defined.

Lemma warning_names_its_line_witness :
  1 <= 2 <= len ["0 ADD"; "junk  "; "2 ADD"]
  /\ exists l, nth_error ["0 ADD"; "junk  "; "2 ADD"] (Z.to_nat (2 - 1))
               = Some l
               /\ "junk" = rstrip l.
Proof.
  apply (DasmMore.warning_names_its_line (H:=opcodes) (H0:=builder)
           ["0 ADD"; "junk  "; "2 ADD"]
           (Returned (H0:=builder) [evm_op 0 ADD None; evm_op 2 ADD None]
              [evm_op 0 ADD None; evm_op 2 ADD None])
           [Warning 2 "junk"] 2 "junk");
    [reflexivity|left; reflexivity].
Defined.


Lemma hex_string_accepted_witness :
  all_chars hex_or_space (replace2 "0" "x" "" "0x60 01") = true
  /\ Z.of_nat (hex_digits (replace2 "0" "x" "" "0x60 01"))
     = 2 * len [x60; x01].
Proof.
  apply (DigitsMore.hex_string_accepted "0x60 01" [x60; x01]).
  reflexivity.
Defined.

Lemma hex_digits_accepted_iff_even_witness :
  (exists bs, EVMBytecodeParser.init (inl "6001") = Ok bs)
  <-> Nat.even (String.length "6001") = true.
Proof.
  apply (DigitsMore.hex_digits_accepted_iff_even "6001"). reflexivity.
Defined.

End MoreExamples.
